(** * DocSim: semantic document similarity (docsim.py)

    A shallow embedding of [src/docsim.py].  The classes [DocSim] and
    [DocSim_threaded] are modelled as a record of instance attributes that is
    threaded through a small state-and-exception monad; Python exceptions are
    values of [exn].  The third-party collaborators ([gensim], [numpy] and the
    iteration order of Python's [set]) are not part of the repository: they
    are the fields of the interface [Backend], and the general statements
    below hold for every backend; what they need from the libraries is
    stated in [argsort_ok], [set_ok] and [dictionary_ok].  [Spec] holds the
    soft cosine of the specification and [Demo] a small backend on which the
    code runs.  The calls into the libraries are taken to return.

    A Rocq [string] stands for the Python [str] with the same code points.
    Python's [str.lower] and the word characters of its regular expressions
    are modelled on the ASCII range only ([Text.lower_char],
    [Gensim.is_token_char]); what is stated about the tokens of a text is
    stated for texts whose code points are all below 128 ([is_ascii]). *)

From Stdlib Require Import Bool Arith Lia List String Ascii.
From Stdlib Require Import ZArith QArith Permutation Sorted DecimalString.
Import ListNotations.

Local Close Scope Q_scope.
Local Open Scope string_scope.
Local Open Scope list_scope.

(** ** Characters and substrings *)

Module Text.

Definition in_range (lo hi c : ascii) : bool :=
  (Ascii.leb lo c && Ascii.leb c hi)%bool.

Definition is_upper (c : ascii) : bool := in_range "A" "Z" c.
Definition is_lower (c : ascii) : bool := in_range "a" "z" c.
Definition is_alpha (c : ascii) : bool := (is_lower c || is_upper c)%bool.
Definition is_digit (c : ascii) : bool := in_range "0" "9" c.

(** [c in chars], for a character class given by enumeration. *)
Fixpoint one_of (chars : string) (c : ascii) : bool :=
  match chars with
  | EmptyString => false
  | String d rest => (Ascii.eqb c d || one_of rest c)%bool
  end.

(** [str.lower] on one ASCII character; a character outside the ASCII range
    is left as it is, which is not what Python does for a capital letter
    such as [chr(201)]. *)
Definition lower_char (c : ascii) : ascii :=
  if is_upper c then ascii_of_nat (nat_of_ascii c + 32) else c.

Fixpoint lower (s : string) : string :=
  match s with
  | EmptyString => EmptyString
  | String c rest => String (lower_char c) (lower rest)
  end.

(** [s[n:]] *)
Fixpoint drop (n : nat) (s : string) : string :=
  match n, s with
  | O, _ => s
  | S _, EmptyString => EmptyString
  | S k, String _ rest => drop k rest
  end.

(** Length of the longest prefix of [s] whose characters all satisfy [p]:
    what a greedy [[class]*] consumes. *)
Fixpoint span (p : ascii -> bool) (s : string) : nat :=
  match s with
  | EmptyString => O
  | String c rest => if p c then S (span p rest) else O
  end.

(** Position of the first character of [s] satisfying [p], if any. *)
Fixpoint find_first (p : ascii -> bool) (s : string) : option nat :=
  match s with
  | EmptyString => None
  | String c rest =>
      if p c then Some O else option_map S (find_first p rest)
  end.

End Text.

(** ** Regular-expression substitution

    [re.sub(pattern, repl, doc)] replaces the leftmost non-overlapping matches
    of [pattern], scanning from left to right.  None of the four patterns of
    [preprocess] looks behind or matches the empty string, so a pattern is
    given by a function telling, for a suffix of the text, how many characters
    a match starting there consumes. *)

Module Re.
Import Text.

(** [skip] counts the characters of the current match still to be dropped. *)
Fixpoint sub_from (m : string -> option nat) (repl : string)
         (skip : nat) (s : string) : string :=
  match s with
  | EmptyString => EmptyString
  | String c rest =>
      match skip with
      | S k => sub_from m repl k rest
      | O =>
          match m s with
          | Some (S k) => repl ++ sub_from m repl k rest
          | _ => String c (sub_from m repl O rest)
          end
      end
  end.

Definition sub (m : string -> option nat) (repl doc : string) : string :=
  sub_from m repl O doc.

Definition not_angle (c : ascii) : bool := negb (one_of "<>" c).

(** [open[^<>]+(>|$)]: the opening text, a greedy non-empty run of characters
    other than the angle brackets, then a closing bracket or the end of the
    text.  When the run stops at an opening bracket no shorter run can be
    followed by [>] or by the end, so there is no match. *)
Definition match_angle (opening : string) (s : string) : option nat :=
  if prefix opening s then
    let body := drop (String.length opening) s in
    let k := span not_angle body in
    match k with
    | O => None
    | S _ =>
        match drop k body with
        | EmptyString => Some (String.length opening + k)
        | String ">" _ => Some (String.length opening + k + 1)
        | String _ _ => None
        end
    end
  else None.

(** [<img[^<>]+(>|$)] *)
Definition re_img : string -> option nat := match_angle "<img".

(** [<[^<>]+(>|$)] *)
Definition re_tag : string -> option nat := match_angle "<".

(** [\[img_assist[^]]*?\]]: the lazy run ends at the first closing bracket. *)
Definition re_img_assist (s : string) : option nat :=
  if prefix "[img_assist" s then
    match find_first (Ascii.eqb "]") (drop 11 s) with
    | Some k => Some (11 + k + 1)
    | None => None
    end
  else None.

(** One repetition of the group of the URL pattern:
    [[a-zA-Z]|[0-9]|[$-_@.&+]|[!*\(\),]|(?:%[0-9a-fA-F][0-9a-fA-F])].
    Inside the third class [$-_] is the range from [$] to [_]; it contains
    [%], so the percent-escape alternative never consumes more than the third
    one already does and the group always consumes exactly one character. *)
Definition url_char (c : ascii) : bool :=
  (is_alpha c || is_digit c
   || (in_range "$" "_" c || one_of "@.&+" c)
   || one_of "!*()," c)%bool.

(** [http[s]?://(?:...)+] *)
Definition re_url (s : string) : option nat :=
  if prefix "http" s then
    let after_s := if prefix "s" (drop 4 s) then 5 else 4 in
    let try (n : nat) : option nat :=
      if prefix "://" (drop n s) then
        match span url_char (drop (n + 3) s) with
        | O => None
        | S k => Some (n + 3 + S k)
        end
      else None in
    match try after_s with
    | Some k => Some k
    | None => if Nat.eqb after_s 5 then try 4 else None
    end
  else None.

End Re.

(** ** gensim's tokenizer

    [gensim.utils.simple_preprocess(doc, min_len, max_len)] lowercases the
    text, takes the maximal runs matched by [(((?![\d])\w)+)] (word characters
    that are not digits: on ASCII the letters and the underscore) and keeps a
    run when [min_len <= len(token) <= max_len] and it does not start with an
    underscore. *)

Module Gensim.
Import Text.

(** The restriction of [(?![\d])\w] to the ASCII range; the letters and
    numeric signs beyond it, which Python also takes as word characters, are
    boundaries here. *)
Definition is_token_char (c : ascii) : bool :=
  (is_alpha c || Ascii.eqb c "_")%bool.

Definition flush (cur : string) : list string :=
  match cur with
  | EmptyString => []
  | _ => [cur]
  end.

(** [cur] is the run being read. *)
Fixpoint tokenize_from (cur : string) (s : string) : list string :=
  match s with
  | EmptyString => flush cur
  | String c rest =>
      if is_token_char c
      then tokenize_from (cur ++ String c EmptyString) rest
      else flush cur ++ tokenize_from EmptyString rest
  end.

Definition tokenize (text : string) : list string :=
  tokenize_from EmptyString (lower text).

(** [max_len = None] stands for [float("inf")]. *)
Definition len_ok (min_len : nat) (max_len : option nat) (t : string) : bool :=
  (Nat.leb min_len (String.length t)
   && match max_len with
      | Some m => Nat.leb (String.length t) m
      | None => true
      end)%bool.

Definition simple_preprocess (doc : string) (min_len : nat)
           (max_len : option nat) : list string :=
  filter (fun t => (len_ok min_len max_len t && negb (prefix "_" t))%bool)
         (tokenize doc).

End Gensim.

(** ** The hard-coded stopword list *)

Definition nltk_stop_words : list string :=
  ["a"; "about"; "above"; "after"; "again"; "against"; "ain"; "all"; "am";
   "an"; "and"; "any"; "are"; "aren"; "aren't"; "as"; "at"; "be"; "because";
   "been"; "before"; "being"; "below"; "between"; "both"; "but"; "by"; "can";
   "couldn"; "couldn't"; "d"; "did"; "didn"; "didn't"; "do"; "does"; "doesn";
   "doesn't"; "doing"; "don"; "don't"; "down"; "during"; "each"; "few";
   "for"; "from"; "further"; "had"; "hadn"; "hadn't"; "has"; "hasn";
   "hasn't"; "have"; "haven"; "haven't"; "having"; "he"; "her"; "here";
   "hers"; "herself"; "him"; "himself"; "his"; "how"; "i"; "if"; "in";
   "into"; "is"; "isn"; "isn't"; "it"; "it's"; "its"; "itself"; "just"; "ll";
   "m"; "ma"; "me"; "mightn"; "mightn't"; "more"; "most"; "mustn"; "mustn't";
   "my"; "myself"; "needn"; "needn't"; "no"; "nor"; "not"; "now"; "o"; "of";
   "off"; "on"; "once"; "only"; "or"; "other"; "our"; "ours"; "ourselves";
   "out"; "over"; "own"; "re"; "s"; "same"; "shan"; "shan't"; "she"; "she's";
   "should"; "should've"; "shouldn"; "shouldn't"; "so"; "some"; "such"; "t";
   "than"; "that"; "that'll"; "the"; "their"; "theirs"; "them"; "themselves";
   "then"; "there"; "these"; "they"; "this"; "those"; "through"; "to"; "too";
   "under"; "until"; "up"; "ve"; "very"; "was"; "wasn"; "wasn't"; "we";
   "were"; "weren"; "weren't"; "what"; "when"; "where"; "which"; "while";
   "who"; "whom"; "why"; "will"; "with"; "won"; "won't"; "wouldn";
   "wouldn't"; "y"; "you"; "you'd"; "you'll"; "you're"; "you've"; "your";
   "yours"; "yourself"; "yourselves"].

(** ** Third-party collaborators

    What [docsim.py] imports from [gensim] and [numpy], and the order in which
    Python iterates over a [set].  A score is a Python float, modelled by a
    rational number. *)

Definition token := string.
Definition score := Q.

Class Backend := {
  (** [Word2VecKeyedVectors] and what [api.load(name)] returns *)
  Model : Type;
  api_load : string -> Model;
  (** [WordEmbeddingSimilarityIndex(model)] *)
  SimilarityIndex : Type;
  WordEmbeddingSimilarityIndex : Model -> SimilarityIndex;
  (** [Dictionary(documents)], its [token2id] mapping and [doc2bow] *)
  DictionaryT : Type;
  Dictionary : list (list token) -> DictionaryT;
  token2id : DictionaryT -> token -> option nat;
  Bow : Type;
  doc2bow : DictionaryT -> list token -> Bow;
  (** [TfidfModel(dictionary=d)] and [tfidf[bow]] *)
  TfidfT : Type;
  TfidfModel : DictionaryT -> TfidfT;
  Vec : Type;
  tfidf_getitem : TfidfT -> Bow -> Vec;
  (** [SparseTermSimilarityMatrix(index, dictionary, tfidf, nonzero_limit)]
      and [m.matrix[i, j]], which is 0 for an entry that is not stored *)
  MatrixT : Type;
  SparseTermSimilarityMatrix :
    SimilarityIndex -> DictionaryT -> TfidfT -> nat -> MatrixT;
  matrix_getitem : MatrixT -> nat -> nat -> score;
  (** [SoftCosineSimilarity(corpus, m)[query]] is an array with one score per
      document of [corpus]; [softcos m query document] is that score *)
  softcos : MatrixT -> Vec -> Vec -> score;
  (** [np.argsort] *)
  argsort : list score -> list nat;
  (** the order in which [for word in set(document)] visits the words *)
  set_iter : list token -> list token
}.

(** What the libraries promise about these operations. *)

(** [np.argsort] returns the indices that sort the array in ascending order;
    the order of equal elements is not specified. *)
Definition argsort_ok (B : Backend) : Prop :=
  forall scores : list score,
    Permutation (argsort scores) (seq 0 (List.length scores)) /\
    StronglySorted (fun i j => Qle (nth i scores 0%Q) (nth j scores 0%Q))
                   (argsort scores).

(** A [set] holds each element of the list once; its order is arbitrary. *)
Definition set_ok (B : Backend) : Prop :=
  forall document : list token,
    NoDup (set_iter document) /\
    forall w, In w (set_iter document) <-> In w document.

(** A [Dictionary] gives an id to every token of the documents it is built
    from. *)
Definition dictionary_ok (B : Backend) : Prop :=
  forall documents document t,
    In document documents -> In t document ->
    token2id (Dictionary documents) t <> None.

(** ** Exceptions and results *)

Inductive exn : Type :=
| AttributeError (attribute : string)
| KeyError (key : string)
| ValueError (message : string).

Inductive outcome (A : Type) : Type :=
| Return (a : A)
| Raise (e : exn).
Arguments Return {A} a.
Arguments Raise {A} e.

(** What [similarity_query] returns when the model is ready; [None] is the
    [option] around it. *)
Inductive ranking : Type :=
| Ranked (rows : list (nat * score))
| Explained (rows : list (nat * score * list (token * score))).

(** The [model] argument of the constructors. *)
Inductive model_arg {B : Backend} : Type :=
| Vectors (m : Model)          (* a Word2VecKeyedVectors instance *)
| Named (name : string)        (* a str *)
| NoModel                      (* None *)
| OtherObject.                 (* anything else *)

(** Python's stable [sorted(xs, reverse=True, key=lambda x: x[1])]: elements
    with equal keys keep their order. *)
Fixpoint insert_desc {A : Type} (x : A * score) (l : list (A * score))
  : list (A * score) :=
  match l with
  | [] => [x]
  | y :: rest =>
      if Qle_bool (snd y) (snd x) then x :: l
      else y :: insert_desc x rest
  end.

Definition sorted_desc {A : Type} (l : list (A * score)) : list (A * score) :=
  fold_right insert_desc [] l.

Definition string_of_nat (n : nat) : string :=
  DecimalString.NilZero.string_of_uint (Nat.to_uint n).

(** ** The classes [DocSim] and [DocSim_threaded] *)

Section DocSim.
Context {B : Backend}.

(** The attributes of an instance.  An attribute that has not been assigned
    is [None]; [model_ready] falls back to the class attribute [False].
    [thread] is the background load started by [DocSim_threaded] and not yet
    run; [printed] collects what [print] wrote. *)
Record DocSim : Type := mkDocSim {
  verbose : bool;
  model : option Model;
  similarity_index : option SimilarityIndex;
  model_ready : bool;
  stopwords : option (list string);
  dictionary : option DictionaryT;
  tfidf : option TfidfT;
  similarity_matrix : option MatrixT;
  thread : option model_arg;
  printed : list string
}.

Definition default_model : string := "glove-wiki-gigaword-50".

(** A freshly allocated object, before [__init__] runs. *)
Definition new_object : DocSim :=
  mkDocSim false None None false None None None None None [].

Definition set_verbose v (s : DocSim) :=
  mkDocSim v (model s) (similarity_index s) (model_ready s) (stopwords s)
           (dictionary s) (tfidf s) (similarity_matrix s) (thread s) (printed s).
Definition set_model v (s : DocSim) :=
  mkDocSim (verbose s) (Some v) (similarity_index s) (model_ready s)
           (stopwords s) (dictionary s) (tfidf s) (similarity_matrix s)
           (thread s) (printed s).
Definition set_similarity_index v (s : DocSim) :=
  mkDocSim (verbose s) (model s) (Some v) (model_ready s) (stopwords s)
           (dictionary s) (tfidf s) (similarity_matrix s) (thread s) (printed s).
Definition set_model_ready v (s : DocSim) :=
  mkDocSim (verbose s) (model s) (similarity_index s) v (stopwords s)
           (dictionary s) (tfidf s) (similarity_matrix s) (thread s) (printed s).
Definition set_stopwords v (s : DocSim) :=
  mkDocSim (verbose s) (model s) (similarity_index s) (model_ready s) (Some v)
           (dictionary s) (tfidf s) (similarity_matrix s) (thread s) (printed s).
Definition set_dictionary v (s : DocSim) :=
  mkDocSim (verbose s) (model s) (similarity_index s) (model_ready s)
           (stopwords s) (Some v) (tfidf s) (similarity_matrix s) (thread s)
           (printed s).
Definition set_tfidf v (s : DocSim) :=
  mkDocSim (verbose s) (model s) (similarity_index s) (model_ready s)
           (stopwords s) (dictionary s) (Some v) (similarity_matrix s)
           (thread s) (printed s).
Definition set_similarity_matrix v (s : DocSim) :=
  mkDocSim (verbose s) (model s) (similarity_index s) (model_ready s)
           (stopwords s) (dictionary s) (tfidf s) (Some v) (thread s)
           (printed s).
Definition set_thread v (s : DocSim) :=
  mkDocSim (verbose s) (model s) (similarity_index s) (model_ready s)
           (stopwords s) (dictionary s) (tfidf s) (similarity_matrix s) v
           (printed s).
Definition add_printed line (s : DocSim) :=
  mkDocSim (verbose s) (model s) (similarity_index s) (model_ready s)
           (stopwords s) (dictionary s) (tfidf s) (similarity_matrix s)
           (thread s) (printed s ++ [line]).

(** *** Methods run in a state-and-exception monad over the instance *)

Definition M (A : Type) : Type := DocSim -> outcome A * DocSim.

Definition ret {A : Type} (a : A) : M A := fun self => (Return a, self).

Definition raise {A : Type} (e : exn) : M A := fun self => (Raise e, self).

Definition bind {A C : Type} (m : M A) (k : A -> M C) : M C :=
  fun self =>
    match m self with
    | (Return a, self') => k a self'
    | (Raise e, self') => (Raise e, self')
    end.

Notation "x <- m ;; k" := (bind m (fun x => k))
  (at level 61, m at next level, right associativity).
Notation "m ;;; k" := (bind m (fun _ => k))
  (at level 61, right associativity).

(** [self.name], for an attribute that may not have been assigned. *)
Definition getattr {A : Type} (name : string) (field : DocSim -> option A)
  : M A :=
  fun self =>
    match field self with
    | Some a => (Return a, self)
    | None => (Raise (AttributeError name), self)
    end.

Definition get {A : Type} (field : DocSim -> A) : M A :=
  fun self => (Return (field self), self).

Definition assign (update : DocSim -> DocSim) : M unit :=
  fun self => (Return tt, update self).

Definition print (line : string) : M unit := assign (add_printed line).

Definition when (b : bool) (m : M unit) : M unit := if b then m else ret tt.

(** [[f(x) for x in xs]] *)
Fixpoint for_each {A C : Type} (f : A -> M C) (xs : list A) : M (list C) :=
  match xs with
  | [] => ret []
  | x :: rest =>
      y <- f x ;;
      ys <- for_each f rest ;;
      ret (y :: ys)
  end.

(** [[x for x in xs if keep(x)]] *)
Fixpoint for_each_if {A : Type} (keep : A -> M bool) (xs : list A)
  : M (list A) :=
  match xs with
  | [] => ret []
  | x :: rest =>
      b <- keep x ;;
      ys <- for_each_if keep rest ;;
      ret (if b then x :: ys else ys)
  end.

Definition contains (container : list string) (x : string) : bool :=
  existsb (String.eqb x) container.

(** *** [setup_model] *)
Definition setup_model (m : model_arg) : M unit :=
  match m with
  | Vectors v => assign (set_model v)
  | Named name =>
      v <- get verbose ;;
      when v (print ("Loading word vector model: " ++ name)) ;;;
      assign (set_model (api_load name)) ;;;
      v <- get verbose ;;
      when v (print "Model loaded")
  | NoModel =>
      v <- get verbose ;;
      when v (print ("Loading default GloVe word vector model: "
                       ++ default_model)) ;;;
      assign (set_model (api_load default_model)) ;;;
      v <- get verbose ;;
      when v (print "Model loaded")
  | OtherObject => raise (ValueError "Unable to load word vector model")
  end ;;;
  mdl <- getattr "model" model ;;
  assign (set_similarity_index (WordEmbeddingSimilarityIndex mdl)) ;;;
  assign (set_model_ready true).

(** *** [DocSim.__init__] *)
Definition DocSim_init (m : model_arg) (sw : option (list string))
           (v : bool) : M unit :=
  assign (set_verbose v) ;;;
  setup_model m ;;;
  match sw with
  | None => assign (set_stopwords nltk_stop_words)
  | Some words => assign (set_stopwords words)
  end.

(** *** [preprocess] *)

(** [token not in self.stopwords] *)
Definition not_stopword (t : token) : M bool :=
  words <- getattr "stopwords" stopwords ;;
  ret (negb (contains words t)).

Definition preprocess (doc : string) : M (list token) :=
  let doc := Re.sub Re.re_img " image_token " doc in
  let doc := Re.sub Re.re_tag " " doc in
  let doc := Re.sub Re.re_img_assist " " doc in
  let doc := Re.sub Re.re_url " url_token " doc in
  for_each_if not_stopword (Gensim.simple_preprocess doc 0 None).

(** *** [_softcossim] *)
Definition _softcossim (query : list token) (documents : list (list token))
  : M (list score) :=
  tf <- getattr "tfidf" tfidf ;;
  d <- getattr "dictionary" dictionary ;;
  let query := tfidf_getitem tf (doc2bow d query) in
  tf <- getattr "tfidf" tfidf ;;
  bows <- for_each (fun document =>
                      d <- getattr "dictionary" dictionary ;;
                      ret (doc2bow d document)) documents ;;
  m <- getattr "similarity_matrix" similarity_matrix ;;
  let similarities := map (fun b => softcos m query (tfidf_getitem tf b)) bows in
  ret similarities.

(** [self.dictionary.token2id[t]] *)
Definition lookup_id (t : token) : M nat :=
  d <- getattr "dictionary" dictionary ;;
  match token2id d t with
  | Some i => ret i
  | None => raise (KeyError t)
  end.

(** *** [_find_similar_terms] *)

(** The body of [for word in set(document)], appending to
    [results_this_doc]. *)
Fixpoint scan_words (idx1 : nat) (words : list token)
         (results_this_doc : list (token * score))
  : M (list (token * score)) :=
  match words with
  | [] => ret results_this_doc
  | word :: rest =>
      idx2 <- lookup_id word ;;
      m <- getattr "similarity_matrix" similarity_matrix ;;
      let score := matrix_getitem m idx1 idx2 in
      scan_words idx1 rest
        (if Qle_bool score 0 then results_this_doc
         else results_this_doc ++ [(word, score)])
  end.

(** The body of [for document in corpus]. *)
Definition similar_terms_in (idx1 : nat) (term_limit : nat)
           (document : list token) : M (list (token * score)) :=
  results_this_doc <- scan_words idx1 (set_iter document) [] ;;
  let results_this_doc := sorted_desc results_this_doc in
  let results_this_doc :=
    firstn (Nat.min (List.length results_this_doc) term_limit) results_this_doc in
  ret results_this_doc.

(** The outer loop, appending to [doc_similar_terms]. *)
Fixpoint _find_similar_terms_loop (query : list token)
         (corpus : list (list token)) (term_limit : nat)
  : M (list (list (token * score))) :=
  match query with
  | [] => ret []
  | term :: rest =>
      idx1 <- lookup_id term ;;
      here <- for_each (similar_terms_in idx1 term_limit) corpus ;;
      later <- _find_similar_terms_loop rest corpus term_limit ;;
      ret (here ++ later)
  end.

Definition _find_similar_terms (query : list token)
           (corpus : list (list token)) (term_limit : nat)
  : M (list (list (token * score))) :=
  _find_similar_terms_loop query corpus term_limit.

(** *** [similarity_query] *)
Definition similarity_query (query_string : string) (documents : list string)
           (explain : bool) : M (option ranking) :=
  ready <- get model_ready ;;
  if ready then
    corpus <- for_each preprocess documents ;;
    query <- preprocess query_string ;;
    v <- get verbose ;;
    when v (print (string_of_nat (List.length corpus)
                     ++ " documents loaded into corpus")) ;;;
    assign (set_dictionary (Dictionary (corpus ++ [query]))) ;;;
    d <- getattr "dictionary" dictionary ;;
    assign (set_tfidf (TfidfModel d)) ;;;
    idx <- getattr "similarity_index" similarity_index ;;
    d <- getattr "dictionary" dictionary ;;
    tf <- getattr "tfidf" tfidf ;;
    assign (set_similarity_matrix (SparseTermSimilarityMatrix idx d tf 100)) ;;;
    scores <- _softcossim query corpus ;;
    let sorted_indexes := rev (argsort scores) in
    let sorted_scores := map (fun i => nth i scores 0%Q) sorted_indexes in
    if explain then
      similar_terms <- _find_similar_terms query corpus 5 ;;
      ret (Some (Explained
                   (combine (combine sorted_indexes sorted_scores)
                            similar_terms)))
    else
      ret (Some (Ranked (combine sorted_indexes sorted_scores)))
  else
    v <- get verbose ;;
    when v (print "DocSim model not ready - cannot evaluate") ;;;
    ret None.

(** *** [DocSim_threaded] *)

(** [_threaded_load]: the thread is created and started; [setup_model] runs
    later, in the background. *)
Definition _threaded_load (m : model_arg) : M unit :=
  assign (set_thread (Some m)).

(** [DocSim_threaded.__init__]: there is no [else] after the test on
    [stopwords]. *)
Definition DocSim_threaded_init (m : model_arg) (sw : option (list string))
           (v : bool) : M unit :=
  assign (set_verbose v) ;;;
  _threaded_load m ;;;
  match sw with
  | None => assign (set_stopwords nltk_stop_words)
  | Some _ => ret tt
  end.

(** The background thread runs [setup_model] to its end; an exception raised
    there ends the thread and is not seen by the caller.  [model_ready] is
    the last attribute [setup_model] assigns, so a caller that observes the
    instance while the thread is half way sees what it saw before the thread
    started. *)
Definition thread_run (self : DocSim) : DocSim :=
  match thread self with
  | Some m => snd (setup_model m (set_thread None self))
  | None => self
  end.

End DocSim.

(** ** The soft cosine of the specification *)

Module Spec.

(** [x^T M y] for sparse vectors: the sum of [a * M[i,j] * b] over the
    entries [(i, a)] of [x] and [(j, b)] of [y]. *)
Definition bilinear (M : nat -> nat -> Q) (x y : list (nat * Q)) : Q :=
  fold_right Qplus 0%Q
    (map (fun ia =>
            fold_right Qplus 0%Q
              (map (fun jb => (snd ia * M (fst ia) (fst jb) * snd jb)%Q) y))
         x).

(** The square root to eight decimal places. *)
Definition Qsqrt (x : Q) : Q :=
  Qmake (Z.sqrt (Qnum x * 10 ^ 16 / Zpos (Qden x))) (10 ^ 8).

(** Modelled from the spec: gensim's [SoftCosineSimilarity] is not part of
    the repository.  Section 4.5: [score(q, d) = (q^T M d) / (sqrt(q^T M q) *
    sqrt(d^T M d))], and if either denominator is 0 the score is defined as
    0.  The quotient is kept in lowest terms. *)
Definition soft_cosine (M : nat -> nat -> Q) (q d : list (nat * Q)) : Q :=
  let norm_q := Qsqrt (bilinear M q q) in
  let norm_d := Qsqrt (bilinear M d d) in
  if (Qeq_bool norm_q 0 || Qeq_bool norm_d 0)%bool then 0%Q
  else Qred (bilinear M q d / (norm_q * norm_d)).

Fixpoint count_id (i : nat) (bow : list (nat * nat)) : list (nat * nat) :=
  match bow with
  | [] => [(i, 1)]
  | (j, n) :: rest =>
      if Nat.eqb i j then (j, S n) :: rest else (j, n) :: count_id i rest
  end.

(** Modelled from the spec: gensim's [doc2bow] is not part of the repository.
    Section 3: a sparse vector holds only ids of terms present in the
    document's tokens; section 4.3: raw term frequency within the sequence. *)
Definition bag (id_of : token -> option nat) (document : list token)
  : list (nat * nat) :=
  fold_left (fun bow t =>
               match id_of t with
               | Some i => count_id i bow
               | None => bow
               end) document [].

(** Modelled from the spec: gensim's [TfidfModel] is not part of the
    repository.  Section 4.3: the weight of a term is its frequency times the
    inverse document frequency of the term ([idf], left open here); section
    3: zero weights are omitted. *)
Definition weigh (idf : nat -> Q) (bow : list (nat * nat)) : list (nat * Q) :=
  filter (fun iw => negb (Qeq_bool (snd iw) 0))
         (map (fun i_n => (fst i_n, (inject_Z (Z.of_nat (snd i_n))
                                     * idf (fst i_n))%Q)) bow).

(** [B] with its vectors and scores replaced by those of the
    specification. *)
Definition backend (B : Backend) (idf : @TfidfT B -> nat -> Q) : Backend :=
  {| Model := @Model B;
     api_load := @api_load B;
     SimilarityIndex := @SimilarityIndex B;
     WordEmbeddingSimilarityIndex := @WordEmbeddingSimilarityIndex B;
     DictionaryT := @DictionaryT B;
     Dictionary := @Dictionary B;
     token2id := @token2id B;
     Bow := list (nat * nat);
     doc2bow := fun d => bag (@token2id B d);
     TfidfT := @TfidfT B;
     TfidfModel := @TfidfModel B;
     Vec := list (nat * Q);
     tfidf_getitem := fun tf => weigh (idf tf);
     MatrixT := @MatrixT B;
     SparseTermSimilarityMatrix := @SparseTermSimilarityMatrix B;
     matrix_getitem := @matrix_getitem B;
     softcos := fun m => soft_cosine (@matrix_getitem B m);
     argsort := @argsort B;
     set_iter := @set_iter B |}.

End Spec.

(** ** A small backend to run the code on

    An embedding model is given by the similarities it induces between
    words.  The dictionary numbers the words in the order in which they are
    first seen, every term has inverse document frequency 1, [argsort] is the
    insertion sort numpy runs on short arrays, and a set is visited in the
    order of first occurrence. *)

Module Demo.

Definition pairs := list (token * token * Q).

Fixpoint similarity (table : pairs) (a b : token) : Q :=
  match table with
  | [] => 0%Q
  | (x, y, s) :: rest =>
      if ((String.eqb a x && String.eqb b y)
          || (String.eqb a y && String.eqb b x))%bool
      then s else similarity rest a b
  end.

Fixpoint first_seen (seen : list token) (ts : list token) : list token :=
  match ts with
  | [] => seen
  | t :: rest =>
      first_seen (if existsb (String.eqb t) seen then seen else seen ++ [t])
                 rest
  end.

Fixpoint index_of (t : token) (ts : list token) : option nat :=
  match ts with
  | [] => None
  | u :: rest => if String.eqb t u then Some 0 else option_map S (index_of t rest)
  end.

Definition entry (table : pairs) (words : list token) (i j : nat) : Q :=
  if Nat.eqb i j then 1%Q
  else match nth_error words i, nth_error words j with
       | Some a, Some b => similarity table a b
       | _, _ => 0%Q
       end.

Fixpoint insert_index (scores : list score) (i : nat) (l : list nat)
  : list nat :=
  match l with
  | [] => [i]
  | j :: rest =>
      if Qle_bool (nth i scores 0%Q) (nth j scores 0%Q) then i :: l
      else j :: insert_index scores i rest
  end.

Definition stable_argsort (scores : list score) : list nat :=
  fold_right (insert_index scores) [] (seq 0 (List.length scores)).

#[export] Instance backend : Backend :=
  {| Model := pairs;
     api_load := fun _ => [];
     SimilarityIndex := pairs;
     WordEmbeddingSimilarityIndex := fun m => m;
     DictionaryT := list token;
     Dictionary := fun documents => first_seen [] (List.concat documents);
     token2id := fun d t => index_of t d;
     Bow := list (nat * nat);
     doc2bow := fun d => Spec.bag (fun t => index_of t d);
     TfidfT := unit;
     TfidfModel := fun _ => tt;
     Vec := list (nat * Q);
     tfidf_getitem := fun _ => Spec.weigh (fun _ => 1%Q);
     MatrixT := nat -> nat -> Q;
     SparseTermSimilarityMatrix := fun table d _ _ => entry table d;
     matrix_getitem := fun m => m;
     softcos := Spec.soft_cosine;
     argsort := stable_argsort;
     set_iter := first_seen [] |}.

(** An instance whose model is loaded. *)
Definition ready (table : pairs) (sw : list string) : DocSim :=
  snd (DocSim_init (Vectors table) (Some sw) false new_object).

(** An instance built without a stopword argument. *)
Definition default : DocSim :=
  snd (DocSim_init (Vectors []) None false new_object).

(** A threaded instance right after its construction, and once its thread
    has loaded the model. *)
Definition loading (sw : option (list string)) : DocSim :=
  snd (DocSim_threaded_init NoModel sw true new_object).

Definition loaded (sw : option (list string)) : DocSim :=
  thread_run (loading sw).

(** An instance that has answered one query, so that its dictionary
    (["bicycle"; "car"]) and its matrix are built. *)
Definition queried : DocSim :=
  snd (similarity_query "car" ["bicycle"; "car"] false
         (ready [("car", "bicycle", 0.4%Q)] nltk_stop_words)).

(** The same backend seen through [Spec.backend], and a ready instance of
    it. *)
Definition spec_backend : Backend := Spec.backend backend (fun _ _ => 1%Q).

Definition spec_ready (sw : list string) : @DocSim spec_backend :=
  snd (DocSim_init (B := spec_backend) (Vectors []) (Some sw) false
         new_object).

(** A ready instance of it for an embedding model given by [table]. *)
Definition spec_ready_on (table : pairs) (sw : list string)
  : @DocSim spec_backend :=
  snd (DocSim_init (B := spec_backend)
         (Vectors (table : @Model spec_backend)) (Some sw) false new_object).

End Demo.

(** ** The methods as functions of the attributes they read

    The definitions of this section restate what the methods compute without
    the monad; the lemmas named [..._run] below prove that the methods
    compute exactly this. *)

Section Model.
Context {B : Backend}.

(** The text after the four substitutions of [preprocess], and its tokens
    before the stopwords are removed. *)
Definition clean (doc : string) : string :=
  Re.sub Re.re_url " url_token "
    (Re.sub Re.re_img_assist " "
       (Re.sub Re.re_tag " "
          (Re.sub Re.re_img " image_token " doc))).

Definition tokens_of (doc : string) : list token :=
  Gensim.simple_preprocess (clean doc) 0 None.

Definition without (words : list string) (ts : list token) : list token :=
  filter (fun t => negb (contains words t)) ts.

(** What [preprocess] does, as a function of the [stopwords] attribute. *)
Definition normalize (sw : option (list string)) (doc : string)
  : outcome (list token) :=
  let ts := tokens_of doc in
  match ts, sw with
  | [], _ => Return []
  | _ :: _, None => Raise (AttributeError "stopwords")
  | _ :: _, Some words => Return (without words ts)
  end.

Fixpoint normalize_all (sw : option (list string)) (docs : list string)
  : outcome (list (list token)) :=
  match docs with
  | [] => Return []
  | doc :: rest =>
      match normalize sw doc with
      | Raise e => Raise e
      | Return ts =>
          match normalize_all sw rest with
          | Raise e => Raise e
          | Return tss => Return (ts :: tss)
          end
      end
  end.

(** The scores of the documents: [_softcossim]. *)
Definition scores_for (d : DictionaryT) (tf : TfidfT) (m : MatrixT)
           (query : list token) (corpus : list (list token)) : list score :=
  map (fun b => softcos m (tfidf_getitem tf (doc2bow d query))
                        (tfidf_getitem tf b))
      (map (doc2bow d) corpus).

(** The id of a registered term. *)
Definition id_in (d : DictionaryT) (t : token) : nat :=
  match token2id d t with
  | Some i => i
  | None => 0
  end.

Definition unregistered (d : DictionaryT) (t : token) : bool :=
  match token2id d t with
  | Some _ => false
  | None => true
  end.

(** Section 4.6 in the words of the specification: the similarity of each of
    the distinct terms to the query term, only the strictly positive scores,
    sorted descending by score, truncated to [top_k]. *)
Definition explanation (sim : token -> score) (distinct_terms : list token)
           (top_k : nat) : list (token * score) :=
  firstn top_k
    (sorted_desc
       (filter (fun ws => negb (Qle_bool (snd ws) 0))
               (map (fun w => (w, sim w)) distinct_terms))).

(** The words the inner loops look up for one query term, in order. *)
Definition words_scanned (corpus : list (list token)) : list token :=
  flat_map set_iter corpus.

(** What [_find_similar_terms] does once [dictionary] and
    [similarity_matrix] are assigned. *)
Fixpoint find_terms (d : DictionaryT) (m : MatrixT) (query : list token)
         (corpus : list (list token)) (term_limit : nat)
  : outcome (list (list (token * score))) :=
  match query with
  | [] => Return []
  | term :: rest =>
      match token2id d term with
      | None => Raise (KeyError term)
      | Some idx1 =>
          match find (unregistered d) (words_scanned corpus) with
          | Some w => Raise (KeyError w)
          | None =>
              match find_terms d m rest corpus term_limit with
              | Raise e => Raise e
              | Return later =>
                  Return
                    (map (fun document =>
                            explanation
                              (fun w => matrix_getitem m idx1 (id_in d w))
                              (set_iter document) term_limit) corpus
                     ++ later)
              end
          end
      end
  end.

(** Some term of some document of the corpus has no id. *)
Definition unknown_document_term (d : DictionaryT)
           (corpus : list (list token)) : Prop :=
  exists document w,
    In document corpus /\ In w document /\ token2id d w = None.

Definition announce (line : string) (self : DocSim) : DocSim :=
  if verbose self then add_printed line self else self.

(** The rows built from the scores: [zip(sorted_indexes, sorted_scores)]. *)
Definition rank (scores : list score) : list (nat * score) :=
  let sorted_indexes := rev (argsort scores) in
  combine sorted_indexes (map (fun i => nth i scores 0%Q) sorted_indexes).

Definition answer (ready : bool) (sw : option (list string))
           (idx : option SimilarityIndex) (query_string : string)
           (documents : list string) (explain : bool)
  : outcome (option ranking) :=
  if ready then
    match normalize_all sw documents with
    | Raise e => Raise e
    | Return corpus =>
        match normalize sw query_string with
        | Raise e => Raise e
        | Return query =>
            match idx with
            | None => Raise (AttributeError "similarity_index")
            | Some idx =>
                let d := Dictionary (corpus ++ [query]) in
                let tf := TfidfModel d in
                let m := SparseTermSimilarityMatrix idx d tf 100 in
                let scores := scores_for d tf m query corpus in
                if explain then
                  match find_terms d m query corpus 5 with
                  | Raise e => Raise e
                  | Return similar_terms =>
                      Return (Some (Explained
                                      (combine (rank scores) similar_terms)))
                  end
                else Return (Some (Ranked (rank scores)))
            end
        end
    end
  else Return None.

(** The instance after the call. *)
Definition after (query_string : string) (documents : list string)
           (self : DocSim) : DocSim :=
  if model_ready self then
    match normalize_all (stopwords self) documents with
    | Raise _ => self
    | Return corpus =>
        match normalize (stopwords self) query_string with
        | Raise _ => self
        | Return query =>
            let d := Dictionary (corpus ++ [query]) in
            let tf := TfidfModel d in
            let self' :=
              set_tfidf tf
                (set_dictionary d
                   (announce (string_of_nat (List.length corpus)
                                ++ " documents loaded into corpus") self)) in
            match similarity_index self with
            | None => self'
            | Some idx =>
                set_similarity_matrix
                  (SparseTermSimilarityMatrix idx d tf 100) self'
            end
        end
    end
  else announce "DocSim model not ready - cannot evaluate" self.

End Model.

(** ** Predicates on rankings and texts *)

(** The rows of a ranking without their explanations. *)
Definition ranking_rows (r : ranking) : list (nat * score) :=
  match r with
  | Ranked rows => rows
  | Explained rows => map fst rows
  end.

(** Sorted by score, descending. *)
Definition descending (rows : list (nat * score)) : Prop :=
  StronglySorted (fun x y => (snd y <= snd x)%Q) rows.

(** Of two rows with equal scores, the one with the smaller document index
    comes first. *)
Definition ties_by_index (rows : list (nat * score)) : Prop :=
  StronglySorted (fun x y => (snd x == snd y)%Q -> fst x < fst y) rows.

(** A sparse vector without negative weights. *)
Definition not_negative (x : list (nat * Q)) : Prop :=
  Forall (fun ia => (0 <= snd ia)%Q) x.

(** Every character of [s] satisfies [p]. *)
Fixpoint all_chars (p : ascii -> bool) (s : string) : bool :=
  match s with
  | EmptyString => true
  | String c rest => (p c && all_chars p rest)%bool
  end.

(** ASCII whitespace: the space and the characters 9 to 13. *)
Definition is_space (c : ascii) : bool :=
  (Ascii.eqb c " " || Text.in_range "009" "013" c)%bool.

(** A lower-case letter or an underscore. *)
Definition is_lower_or_underscore (c : ascii) : bool :=
  (Text.is_lower c || Ascii.eqb c "_")%bool.

(** A token: not empty, lower-case letters and underscores only. *)
Definition word_like (t : string) : Prop :=
  t <> EmptyString /\ all_chars is_lower_or_underscore t = true.

(** A character of the ASCII range: a code point below 128. *)
Definition is_ascii (c : ascii) : bool := Nat.ltb (nat_of_ascii c) 128.

(** The capital letters [A] to [Z], by code point. *)
Definition is_capital (c : ascii) : bool :=
  (Nat.leb 65 (nat_of_ascii c) && Nat.leb (nat_of_ascii c) 90)%bool.

(** The ASCII letters and the underscore, by code point. *)
Definition is_letter_or_underscore (c : ascii) : bool :=
  (is_capital c
   || (Nat.leb 97 (nat_of_ascii c) && Nat.leb (nat_of_ascii c) 122)
   || Nat.eqb (nat_of_ascii c) 95)%bool.

(** The characters the URL pattern repeats after [://], by code point: the
    exclamation mark, the range from [$] to [_] (it holds the digits, the
    capital letters and most punctuation) and the small letters. *)
Definition is_url_character (c : ascii) : bool :=
  (Nat.eqb (nat_of_ascii c) 33
   || (Nat.leb 36 (nat_of_ascii c) && Nat.leb (nat_of_ascii c) 95)
   || (Nat.leb 97 (nat_of_ascii c) && Nat.leb (nat_of_ascii c) 122))%bool.

(** A URL character that the substitutions made before the URL pattern
    leave alone: not an opening bracket. *)
Definition is_host_character (c : ascii) : bool :=
  (is_url_character c
   && negb (Ascii.eqb c "<") && negb (Ascii.eqb c "["))%bool.


(** ** The life of an instance *)

Section Lifecycle.
Context {B : Backend}.

(** The model [setup_model] stores for a [model] argument, when it accepts
    it. *)
Definition loaded_model (m : model_arg) : option Model :=
  match m with
  | Vectors v => Some v
  | Named name => Some (api_load name)
  | NoModel => Some (api_load default_model)
  | OtherObject => None
  end.

(** The instances a program can hold: built by one of the two constructors
    (a constructor that raises gives no instance), then used through the
    methods while the background thread may end at any time. *)
Inductive reachable : DocSim -> Prop :=
| reach_DocSim (m : model_arg) (sw : option (list string)) (v : bool) :
    fst (DocSim_init m sw v new_object) = Return tt ->
    reachable (snd (DocSim_init m sw v new_object))
| reach_DocSim_threaded (m : model_arg) (sw : option (list string))
                        (v : bool) :
    reachable (snd (DocSim_threaded_init m sw v new_object))
| reach_thread_run (self : DocSim) :
    reachable self -> reachable (thread_run self)
| reach_setup_model (self : DocSim) (m : model_arg) :
    reachable self -> reachable (snd (setup_model m self))
| reach_preprocess (self : DocSim) (doc : string) :
    reachable self -> reachable (snd (preprocess doc self))
| reach_softcossim (self : DocSim) (query : list token)
                   (corpus : list (list token)) :
    reachable self -> reachable (snd (_softcossim query corpus self))
| reach_find_similar_terms (self : DocSim) (query : list token)
                           (corpus : list (list token)) (k : nat) :
    reachable self ->
    reachable (snd (_find_similar_terms query corpus k self))
| reach_similarity_query (self : DocSim) (query_string : string)
                         (documents : list string) (explain : bool) :
    reachable self ->
    reachable (snd (similarity_query query_string documents explain self)).

(** The loaded model and its similarity index belong together, and so do
    the dictionary, the TF-IDF model and the term similarity matrix. *)
Definition coherent (self : DocSim) : Prop :=
  (model_ready self = true ->
   exists mdl,
     model self = Some mdl /\
     similarity_index self = Some (WordEmbeddingSimilarityIndex mdl))
  /\ (forall tf, tfidf self = Some tf ->
        exists d, dictionary self = Some d /\ tf = TfidfModel d)
  /\ (forall mx, similarity_matrix self = Some mx ->
        exists idx d,
          dictionary self = Some d /\
          tfidf self = Some (TfidfModel d) /\
          mx = SparseTermSimilarityMatrix idx d (TfidfModel d) 100)
  /\ (dictionary self <> None -> model_ready self = true).

(** A computation that only reads the instance. *)
Definition reads_only {A : Type} (m : M A) : Prop :=
  forall self, snd (m self) = self.

(** [preprocess doc] returns the tokens [ts] and leaves the instance as it
    is. *)
Definition preprocessed (self : DocSim) (doc : string) (ts : list token)
  : Prop :=
  preprocess doc self = (Return ts, self).

(** The instance after a sequence of calls of [similarity_query], each given
    by its query string, its documents and its [explain] flag. *)
Fixpoint after_calls (calls : list (string * list string * bool))
         (self : DocSim) : DocSim :=
  match calls with
  | [] => self
  | (query_string, documents, explain) :: rest =>
      after_calls rest
        (snd (similarity_query query_string documents explain self))
  end.

End Lifecycle.

(** Any character but the closing square bracket. *)
Definition not_closing (c : ascii) : bool := negb (Ascii.eqb "]" c).

(** A character that starts no markup and is in no URL scheme. *)
Definition plain_char (c : ascii) : bool := negb (Text.one_of "<[:" c).

(** A stopword the tokenizer can produce from a text of ASCII characters. *)
Definition producible (w : string) : bool :=
  (negb (String.eqb w EmptyString)
   && all_chars is_lower_or_underscore w
   && negb (prefix "_" w))%bool.

(** Case analysis on the comparisons of characters in the goal. *)
Ltac compare_characters :=
  repeat match goal with
         | |- context [ascii_dec ?x ?y] =>
             destruct (ascii_dec x y) as [?|?]; [subst|]
         end.

(** * Properties *)

(** ** The tokenizer and the substitutions on examples *)

Example tokenize_digits :
  Gensim.simple_preprocess "Abc123def _x y_z" 0 None = ["abc"; "def"; "y_z"].
Proof. reflexivity. Qed.

Example sub_img_example :
  Re.sub Re.re_img " image_token " "<img src=x> visit http://example.com now"
  = " image_token  visit http://example.com now".
Proof. reflexivity. Qed.

Example sub_url_example :
  Re.sub Re.re_url " url_token " " image_token  visit http://example.com now"
  = " image_token  visit  url_token  now".
Proof. reflexivity. Qed.


(** ** The monad *)

Section Running.
Context {B : Backend}.

Notation "x <- m ;; k" := (bind m (fun x => k))
  (at level 61, m at next level, right associativity).

Lemma bind_run {A C : Type} (m : M A) (k : A -> M C) (self : DocSim) :
  bind m k self
  = match m self with
    | (Return a, self') => k a self'
    | (Raise e, self') => (Raise e, self')
    end.
Proof. reflexivity. Qed.

Lemma stopword_filter_run (ts : list token) (self : DocSim) :
  for_each_if not_stopword ts self
  = (match ts, stopwords self with
     | [], _ => Return []
     | _ :: _, None => Raise (AttributeError "stopwords")
     | _, Some words => Return (without words ts)
     end, self).
Proof.
  induction ts as [|t ts IH]; [reflexivity|].
  cbn [for_each_if]. rewrite bind_run.
  unfold not_stopword at 1. rewrite bind_run. unfold getattr at 1.
  destruct (stopwords self) as [words|] eqn:Hsw; [|reflexivity].
  unfold ret at 1. rewrite bind_run, IH.
  destruct ts; reflexivity.
Qed.

Lemma preprocess_run (doc : string) (self : DocSim) :
  preprocess doc self = (normalize (stopwords self) doc, self).
Proof.
  unfold preprocess, normalize, tokens_of, clean.
  rewrite stopword_filter_run. reflexivity.
Qed.

Lemma preprocess_all_run (docs : list string) (self : DocSim) :
  for_each preprocess docs self = (normalize_all (stopwords self) docs, self).
Proof.
  induction docs as [|doc docs IH]; [reflexivity|].
  cbn [for_each normalize_all]. rewrite bind_run, preprocess_run.
  destruct (normalize (stopwords self) doc); [|reflexivity].
  rewrite bind_run, IH.
  destruct (normalize_all (stopwords self) docs); reflexivity.
Qed.

Lemma bows_run (d : DictionaryT) (documents : list (list token))
      (self : DocSim) :
  dictionary self = Some d ->
  for_each (fun document =>
              d <- getattr "dictionary" dictionary ;;
              ret (doc2bow d document)) documents self
  = (Return (map (doc2bow d) documents), self).
Proof.
  intros Hd. induction documents as [|doc docs IH]; [reflexivity|].
  cbn [for_each map]. rewrite bind_run, bind_run.
  unfold getattr at 1. rewrite Hd. unfold ret at 1.
  rewrite bind_run, IH. reflexivity.
Qed.

Lemma softcossim_run (d : DictionaryT) (tf : TfidfT) (m : MatrixT)
      (query : list token) (corpus : list (list token)) (self : DocSim) :
  dictionary self = Some d -> tfidf self = Some tf ->
  similarity_matrix self = Some m ->
  _softcossim query corpus self
  = (Return (scores_for d tf m query corpus), self).
Proof.
  intros Hd Htf Hm. unfold _softcossim.
  rewrite bind_run. unfold getattr at 1. rewrite Htf.
  rewrite bind_run. unfold getattr at 1. rewrite Hd.
  rewrite bind_run. unfold getattr at 1. rewrite Htf.
  rewrite bind_run, (bows_run d) by assumption.
  rewrite bind_run. unfold getattr at 1. rewrite Hm.
  reflexivity.
Qed.

Lemma lookup_id_run (d : DictionaryT) (t : token) (self : DocSim) :
  dictionary self = Some d ->
  lookup_id t self
  = (match token2id d t with
     | Some i => Return i
     | None => Raise (KeyError t)
     end, self).
Proof.
  intros Hd. unfold lookup_id. rewrite bind_run. unfold getattr at 1.
  rewrite Hd. destruct (token2id d t); reflexivity.
Qed.

Lemma scan_words_run (d : DictionaryT) (m : MatrixT) (idx1 : nat)
      (words : list token) (acc : list (token * score)) (self : DocSim) :
  dictionary self = Some d -> similarity_matrix self = Some m ->
  scan_words idx1 words acc self
  = (match find (unregistered d) words with
     | Some w => Raise (KeyError w)
     | None =>
         Return (acc ++ filter (fun ws => negb (Qle_bool (snd ws) 0))
                          (map (fun w => (w, matrix_getitem m idx1 (id_in d w)))
                               words))
     end, self).
Proof.
  intros Hd Hm. revert acc.
  induction words as [|w words IH]; intros acc.
  - cbn. rewrite app_nil_r. reflexivity.
  - cbn [scan_words find map filter]. rewrite bind_run, (lookup_id_run d) by assumption.
    unfold unregistered at 1.
    destruct (token2id d w) as [idx2|] eqn:Hw; [|reflexivity].
    replace (id_in d w) with idx2 by (unfold id_in; rewrite Hw; reflexivity).
    rewrite bind_run. unfold getattr at 1. rewrite Hm, IH.
    destruct (find (unregistered d) words); [reflexivity|].
    cbn [snd]. destruct (Qle_bool (matrix_getitem m idx1 idx2) 0); cbn [negb].
    + reflexivity.
    + rewrite <- app_assoc. reflexivity.
Qed.

Lemma firstn_min_length {A : Type} (l : list A) (k : nat) :
  firstn (Nat.min (List.length l) k) l = firstn k l.
Proof.
  destruct (Nat.le_ge_cases (List.length l) k) as [H|H].
  - rewrite Nat.min_l by assumption.
    rewrite firstn_all, firstn_all2 by assumption. reflexivity.
  - rewrite Nat.min_r by assumption. reflexivity.
Qed.

Lemma similar_terms_in_run (d : DictionaryT) (m : MatrixT) (idx1 k : nat)
      (document : list token) (self : DocSim) :
  dictionary self = Some d -> similarity_matrix self = Some m ->
  similar_terms_in idx1 k document self
  = (match find (unregistered d) (set_iter document) with
     | Some w => Raise (KeyError w)
     | None =>
         Return (explanation (fun w => matrix_getitem m idx1 (id_in d w))
                             (set_iter document) k)
     end, self).
Proof.
  intros Hd Hm. unfold similar_terms_in.
  rewrite bind_run, (scan_words_run d m) by assumption.
  destruct (find (unregistered d) (set_iter document)); [reflexivity|].
  cbn [app]. unfold ret. rewrite firstn_min_length. reflexivity.
Qed.

Lemma find_app_none {A : Type} (p : A -> bool) (l1 l2 : list A) :
  find p (l1 ++ l2)
  = match find p l1 with
    | Some x => Some x
    | None => find p l2
    end.
Proof.
  induction l1 as [|x l1 IH]; [reflexivity|].
  cbn. destruct (p x); [reflexivity|apply IH].
Qed.

Lemma corpus_scan_run (d : DictionaryT) (m : MatrixT) (idx1 k : nat)
      (corpus : list (list token)) (self : DocSim) :
  dictionary self = Some d -> similarity_matrix self = Some m ->
  for_each (similar_terms_in idx1 k) corpus self
  = (match find (unregistered d) (words_scanned corpus) with
     | Some w => Raise (KeyError w)
     | None =>
         Return (map (fun document =>
                        explanation
                          (fun w => matrix_getitem m idx1 (id_in d w))
                          (set_iter document) k) corpus)
     end, self).
Proof.
  intros Hd Hm. induction corpus as [|doc corpus IH]; [reflexivity|].
  cbn [for_each words_scanned flat_map map].
  rewrite bind_run, (similar_terms_in_run d m) by assumption.
  rewrite find_app_none.
  destruct (find (unregistered d) (set_iter doc)); [reflexivity|].
  rewrite bind_run, IH. unfold words_scanned.
  destruct (find (unregistered d) (flat_map set_iter corpus)); reflexivity.
Qed.

Lemma find_similar_terms_run (d : DictionaryT) (m : MatrixT)
      (query : list token) (corpus : list (list token)) (k : nat)
      (self : DocSim) :
  dictionary self = Some d -> similarity_matrix self = Some m ->
  _find_similar_terms query corpus k self
  = (find_terms d m query corpus k, self).
Proof.
  intros Hd Hm. unfold _find_similar_terms.
  induction query as [|term rest IH]; [reflexivity|].
  cbn [_find_similar_terms_loop find_terms].
  rewrite bind_run, (lookup_id_run d) by assumption.
  destruct (token2id d term) as [idx1|]; [|reflexivity].
  rewrite bind_run, (corpus_scan_run d m) by assumption.
  destruct (find (unregistered d) (words_scanned corpus)); [reflexivity|].
  rewrite bind_run, IH.
  destruct (find_terms d m rest corpus k); reflexivity.
Qed.

Lemma when_print_run (line : string) (self : DocSim) :
  when (verbose self) (print line) self = (Return tt, announce line self).
Proof. unfold when, announce. destruct (verbose self); reflexivity. Qed.

Lemma similarity_query_run (query_string : string) (documents : list string)
      (explain : bool) (self : DocSim) :
  similarity_query query_string documents explain self
  = (answer (model_ready self) (stopwords self) (similarity_index self)
            query_string documents explain,
     after query_string documents self).
Proof.
  unfold similarity_query, answer, after.
  rewrite bind_run. unfold get at 1.
  destruct (model_ready self) eqn:Hready.
  - rewrite bind_run, preprocess_all_run.
    destruct (normalize_all (stopwords self) documents) as [corpus|e];
      [|reflexivity].
    rewrite bind_run, preprocess_run.
    destruct (normalize (stopwords self) query_string) as [query|e];
      [|reflexivity].
    rewrite bind_run. unfold get at 1.
    rewrite bind_run, when_print_run.
    set (self1 := announce _ self).
    assert (H1 : similarity_index self1 = similarity_index self)
      by (unfold self1, announce; destruct (verbose self); reflexivity).
    rewrite bind_run. unfold assign at 1.
    rewrite bind_run. unfold getattr at 1. cbn [dictionary set_dictionary].
    rewrite bind_run. unfold assign at 1.
    rewrite bind_run. unfold getattr at 1.
    cbn [similarity_index set_tfidf set_dictionary]. rewrite H1.
    destruct (similarity_index self) as [idx|]; [|reflexivity].
    rewrite bind_run. unfold getattr at 1.
    cbn [dictionary set_tfidf set_dictionary].
    rewrite bind_run. unfold getattr at 1. cbn [tfidf set_tfidf].
    rewrite bind_run. unfold assign at 1.
    set (d := Dictionary (corpus ++ [query])).
    set (tf := TfidfModel d).
    set (m := SparseTermSimilarityMatrix idx d tf 100).
    rewrite bind_run, (softcossim_run d tf m) by reflexivity.
    destruct explain.
    + rewrite bind_run, (find_similar_terms_run d m) by reflexivity.
      destruct (find_terms d m query corpus 5); reflexivity.
    + reflexivity.
  - rewrite bind_run. unfold get at 1.
    rewrite bind_run, when_print_run. reflexivity.
Qed.

End Running.

(** ** The readiness gate, determinism and the per-call structures *)

Section Calls.
Context {B : Backend}.

Lemma announce_attributes (line : string) (self : DocSim) :
  model_ready (announce line self) = model_ready self /\
  stopwords (announce line self) = stopwords self /\
  similarity_index (announce line self) = similarity_index self /\
  dictionary (announce line self) = dictionary self /\
  tfidf (announce line self) = tfidf self /\
  similarity_matrix (announce line self) = similarity_matrix self.
Proof. unfold announce. destruct (verbose self); repeat split. Qed.

(** The call leaves alone the attributes from which its answer is
    computed. *)
Lemma after_configuration (query_string : string) (documents : list string)
      (self : DocSim) :
  model_ready (after query_string documents self) = model_ready self /\
  stopwords (after query_string documents self) = stopwords self /\
  similarity_index (after query_string documents self)
  = similarity_index self.
Proof.
  unfold after.
  destruct (model_ready self) eqn:Hready.
  - destruct (normalize_all (stopwords self) documents) as [corpus|e];
      [|auto].
    destruct (normalize (stopwords self) query_string) as [query|e]; [|auto].
    set (line := (_ ++ _)%string).
    destruct (announce_attributes line self) as (Hr & Hs & Hi & _).
    rewrite Hready in Hr.
    destruct (similarity_index self) as [idx|] eqn:Hidx;
      rewrite ?Hidx in Hi; cbn; auto.
  - destruct (announce_attributes
                "DocSim model not ready - cannot evaluate" self)
      as (Hr & Hs & Hi & _).
    rewrite Hready in Hr. auto.
Qed.

(** C2: on an instance whose [model_ready] flag is not set,
    [similarity_query] returns [None], which is not a ranking (not even the
    empty one); it raises nothing, whatever the other attributes are (even
    when [stopwords] was never assigned), and it runs none of the pipeline:
    [dictionary], [tfidf] and [similarity_matrix] are what they were, and the
    only effect is the message printed in verbose mode. *)
Theorem C2_not_ready_returns_None
        (query_string : string) (documents : list string) (explain : bool)
        (self : DocSim) :
  model_ready self = false ->
  similarity_query query_string documents explain self
  = (Return None,
     announce "DocSim model not ready - cannot evaluate" self)
  /\ (forall r : ranking,
         fst (similarity_query query_string documents explain self)
         <> Return (Some r))
  /\ (forall e : exn,
         fst (similarity_query query_string documents explain self)
         <> Raise e)
  /\ let self' := snd (similarity_query query_string documents explain self) in
     dictionary self' = dictionary self
     /\ tfidf self' = tfidf self
     /\ similarity_matrix self' = similarity_matrix self.
Proof.
  intros Hready.
  rewrite similarity_query_run. unfold answer, after. rewrite Hready.
  split; [reflexivity|].
  split; [intros r; discriminate|].
  split; [intros e; discriminate|].
  cbn [snd].
  destruct (announce_attributes
              "DocSim model not ready - cannot evaluate" self)
    as (_ & _ & _ & Hd & Htf & Hm).
  auto.
Qed.

(** The answer is a function of the arguments and of three attributes. *)
Lemma same_configuration_same_result
      (query_string : string) (documents : list string) (explain : bool)
      (self other : DocSim) :
  model_ready other = model_ready self ->
  stopwords other = stopwords self ->
  similarity_index other = similarity_index self ->
  fst (similarity_query query_string documents explain other)
  = fst (similarity_query query_string documents explain self).
Proof.
  intros Hr Hs Hi. rewrite !similarity_query_run. cbn [fst].
  rewrite Hr, Hs, Hi. reflexivity.
Qed.

Lemma similarity_query_configuration
      (query_string : string) (documents : list string) (explain : bool)
      (self : DocSim) :
  let self' := snd (similarity_query query_string documents explain self) in
  model_ready self' = model_ready self /\
  stopwords self' = stopwords self /\
  similarity_index self' = similarity_index self.
Proof.
  cbv zeta. rewrite similarity_query_run. cbn [snd].
  apply after_configuration.
Qed.

Lemma after_calls_configuration
      (calls : list (string * list string * bool)) (self : DocSim) :
  model_ready (after_calls calls self) = model_ready self /\
  stopwords (after_calls calls self) = stopwords self /\
  similarity_index (after_calls calls self) = similarity_index self.
Proof.
  revert self. induction calls as [|[[q docs] e] calls IH]; intros self.
  - cbn. auto.
  - cbn [after_calls].
    destruct (IH (snd (similarity_query q docs e self))) as (Hr & Hs & Hi).
    destruct (similarity_query_configuration q docs e self)
      as (Hr' & Hs' & Hi').
    rewrite Hr, Hs, Hi. auto.
Qed.

(** C8, as amended: a call of [similarity_query] that returns a ranking has
    built the dictionary from the tokens of this call's documents and query,
    the TF-IDF model from that dictionary and the term similarity matrix from
    both and the similarity index, and has stored them in the instance
    whatever was stored there before; the result is the same on every
    instance with the same [model_ready] flag, stopwords and similarity
    index. *)
Theorem C8_structures_rebuilt_by_each_ranking_call
        (query_string : string) (documents : list string) (explain : bool)
        (self : DocSim) (r : ranking) :
  fst (similarity_query query_string documents explain self)
  = Return (Some r) ->
  (exists corpus query idx,
      fst (for_each preprocess documents self) = Return corpus /\
      fst (preprocess query_string self) = Return query /\
      similarity_index self = Some idx /\
      let self' := snd (similarity_query query_string documents explain self) in
      let d := Dictionary (corpus ++ [query]) in
      dictionary self' = Some d /\
      tfidf self' = Some (TfidfModel d) /\
      similarity_matrix self'
      = Some (SparseTermSimilarityMatrix idx d (TfidfModel d) 100))
  /\ forall other : DocSim,
      model_ready other = model_ready self ->
      stopwords other = stopwords self ->
      similarity_index other = similarity_index self ->
      fst (similarity_query query_string documents explain other)
      = Return (Some r).
Proof.
  rewrite similarity_query_run. cbn [fst snd]. intros Hr. split.
  - unfold answer in Hr. unfold after.
    destruct (model_ready self); [|discriminate].
    rewrite preprocess_all_run, preprocess_run. cbn [fst].
    destruct (normalize_all (stopwords self) documents) as [corpus|e];
      [|discriminate].
    destruct (normalize (stopwords self) query_string) as [query|e];
      [|discriminate].
    destruct (similarity_index self) as [idx|]; [|discriminate].
    exists corpus, query, idx. repeat split; reflexivity.
  - intros other H1 H2 H3. rewrite similarity_query_run. cbn [fst].
    rewrite H1, H2, H3. exact Hr.
Qed.

End Calls.

(** ** Ordered lists *)

Section Ordered.
Context {A : Type}.

Lemma StronglySorted_app (R : A -> A -> Prop) (l1 l2 : list A) :
  StronglySorted R l1 -> StronglySorted R l2 ->
  (forall x y, In x l1 -> In y l2 -> R x y) ->
  StronglySorted R (l1 ++ l2).
Proof.
  intros H1 H2 H12. induction H1 as [|x l1 Hl1 IH Hx]; [exact H2|].
  cbn. constructor.
  - apply IH. intros a b Ha Hb. apply H12; [right; exact Ha|exact Hb].
  - apply Forall_app. split; [exact Hx|].
    apply Forall_forall. intros y Hy. apply H12; [left; reflexivity|exact Hy].
Qed.

Lemma StronglySorted_rev (R : A -> A -> Prop) (l : list A) :
  StronglySorted R l -> StronglySorted (fun x y => R y x) (rev l).
Proof.
  induction 1 as [|x l Hl IH Hx]; [constructor|].
  cbn. apply StronglySorted_app.
  - exact IH.
  - repeat constructor.
  - intros a b Ha Hb. destruct Hb as [<-|[]].
    apply in_rev in Ha. rewrite Forall_forall in Hx. apply Hx, Ha.
Qed.

Lemma In_firstn (n : nat) (l : list A) (x : A) :
  In x (firstn n l) -> In x l.
Proof.
  revert n. induction l as [|y l IH]; intros [|n]; cbn; try tauto.
  intros [H|H]; [left; exact H|right; exact (IH n H)].
Qed.

Lemma StronglySorted_firstn (R : A -> A -> Prop) (n : nat) (l : list A) :
  StronglySorted R l -> StronglySorted R (firstn n l).
Proof.
  intros H. revert n. induction H as [|x l Hl IH Hx]; intros n.
  - rewrite firstn_nil. constructor.
  - destruct n; [constructor|]. cbn. constructor; [apply IH|].
    rewrite Forall_forall in *. intros y Hy.
    apply Hx. exact (In_firstn n l y Hy).
Qed.

Lemma StronglySorted_impl (R R' : A -> A -> Prop) (l : list A) :
  (forall x y, R x y -> R' x y) ->
  StronglySorted R l -> StronglySorted R' l.
Proof.
  intros HR. induction 1 as [|x l Hl IH Hx]; constructor; [exact IH|].
  revert Hx. apply Forall_impl. intros y. apply HR.
Qed.

Lemma StronglySorted_map {C : Type} (f : A -> C) (R : C -> C -> Prop)
      (l : list A) :
  StronglySorted (fun x y => R (f x) (f y)) l -> StronglySorted R (map f l).
Proof.
  induction 1 as [|x l Hl IH Hx]; [constructor|].
  cbn. constructor; [exact IH|].
  rewrite Forall_forall in *. intros y Hy.
  apply in_map_iff in Hy. destruct Hy as (a & <- & Ha). apply Hx, Ha.
Qed.

Lemma combine_map_self {C : Type} (f : A -> C) (l : list A) :
  combine l (map f l) = map (fun x => (x, f x)) l.
Proof. induction l as [|x l IH]; [reflexivity|]. cbn. rewrite IH. reflexivity. Qed.

Lemma map_fst_combine {C : Type} (l : list A) (l' : list C) :
  map fst (combine l l') = firstn (List.length l') l.
Proof.
  revert l'. induction l as [|x l IH]; intros [|y l']; try reflexivity.
  - cbn. rewrite IH. reflexivity.
Qed.

End Ordered.

(** ** The order of the ranking *)

Section Order.
Context {B : Backend}.

Lemma normalize_all_length (sw : option (list string)) (docs : list string)
      (corpus : list (list token)) :
  normalize_all sw docs = Return corpus ->
  List.length corpus = List.length docs.
Proof.
  revert corpus. induction docs as [|doc docs IH]; intros corpus H; cbn in H.
  - injection H as <-. reflexivity.
  - destruct (normalize sw doc); [|discriminate].
    destruct (normalize_all sw docs) as [tss|]; [|discriminate].
    injection H as <-. cbn. rewrite (IH tss eq_refl). reflexivity.
Qed.

Lemma scores_for_length d tf m query (corpus : list (list token)) :
  List.length (scores_for d tf m query corpus) = List.length corpus.
Proof. unfold scores_for. rewrite !length_map. reflexivity. Qed.

Lemma rank_rows (scores : list score) :
  rank scores = map (fun i => (i, nth i scores 0%Q)) (rev (argsort scores)).
Proof. unfold rank. apply combine_map_self. Qed.

Lemma rank_indexes (scores : list score) :
  map fst (rank scores) = rev (argsort scores).
Proof.
  rewrite rank_rows, map_map. cbn. apply map_id.
Qed.

Lemma rank_row_score (scores : list score) (i : nat) (s : score) :
  In (i, s) (rank scores) -> s = nth i scores 0%Q.
Proof.
  rewrite rank_rows. intros H. apply in_map_iff in H.
  destruct H as (j & Hj & _). injection Hj as -> ->. reflexivity.
Qed.

Section WithArgsort.
Hypothesis Hargsort : argsort_ok B.

Lemma rank_permutation (scores : list score) :
  Permutation (map fst (rank scores)) (seq 0 (List.length scores)).
Proof.
  rewrite rank_indexes. destruct (Hargsort scores) as [Hperm _].
  rewrite <- Hperm. symmetry. apply Permutation_rev.
Qed.

Lemma rank_length (scores : list score) :
  List.length (rank scores) = List.length scores.
Proof.
  rewrite <- (length_map fst), (Permutation_length (rank_permutation scores)).
  apply length_seq.
Qed.

Lemma rank_descending (scores : list score) : descending (rank scores).
Proof.
  unfold descending. rewrite rank_rows.
  apply StronglySorted_map. cbn [snd].
  destruct (Hargsort scores) as [_ Hsorted].
  apply (StronglySorted_rev _ _ Hsorted).
Qed.

Lemma rank_contains (scores : list score) (i : nat) :
  i < List.length scores -> In (i, nth i scores 0%Q) (rank scores).
Proof.
  intros Hi. rewrite rank_rows. apply in_map_iff. exists i. split; [reflexivity|].
  rewrite <- rank_indexes.
  apply (Permutation_in _ (Permutation_sym (rank_permutation scores))).
  apply in_seq. lia.
Qed.

(** The rows of a returned ranking are a prefix of the rows built from the
    scores; without explanations they are all of them. *)
Lemma returned_rows (query_string : string) (documents : list string)
      (explain : bool) (self : DocSim) (r : ranking) :
  fst (similarity_query query_string documents explain self)
  = Return (Some r) ->
  exists (scores : list score) (n : nat),
    List.length scores = List.length documents /\
    ranking_rows r = firstn n (rank scores) /\
    (explain = false -> ranking_rows r = rank scores).
Proof.
  rewrite similarity_query_run. cbn [fst]. unfold answer.
  destruct (model_ready self); [|discriminate].
  destruct (normalize_all (stopwords self) documents) as [corpus|e] eqn:Hc;
    [|discriminate].
  destruct (normalize (stopwords self) query_string) as [query|e];
    [|discriminate].
  destruct (similarity_index self) as [idx|]; [|discriminate].
  cbv zeta.
  set (d := Dictionary (corpus ++ [query])).
  set (tf := TfidfModel d).
  set (m := SparseTermSimilarityMatrix idx d tf 100).
  set (scores := scores_for d tf m query corpus).
  assert (Hlen : List.length scores = List.length documents).
  { unfold scores. rewrite scores_for_length.
    exact (normalize_all_length _ _ _ Hc). }
  destruct explain.
  - destruct (find_terms d m query corpus 5) as [terms|e]; [|discriminate].
    intros H. injection H as <-.
    exists scores, (List.length terms). cbn [ranking_rows].
    rewrite map_fst_combine. split; [exact Hlen|]. split; [reflexivity|].
    discriminate.
  - intros H. injection H as <-.
    exists scores, (List.length (rank scores)). cbn [ranking_rows].
    rewrite firstn_all. auto.
Qed.

Lemma NoDup_firstn {A : Type} (n : nat) (l : list A) :
  NoDup l -> NoDup (firstn n l).
Proof.
  intros H. revert n. induction H as [|x l Hx Hl IH]; intros n.
  - rewrite firstn_nil. constructor.
  - destruct n; [constructor|]. cbn. constructor; [|apply IH].
    intros Hin. apply Hx. exact (In_firstn n l x Hin).
Qed.

(** C1, as amended: the rows of a ranking returned by [similarity_query] are
    sorted by score, descending; every row carries the index of a document of
    the call, no index twice, and without explanations every document has
    its row.  Nothing is promised about the order of rows with equal
    scores. *)
Theorem C1_ranking_sorted_by_score_descending
        (query_string : string) (documents : list string) (explain : bool)
        (self : DocSim) (r : ranking) :
  fst (similarity_query query_string documents explain self)
  = Return (Some r) ->
  descending (ranking_rows r)
  /\ NoDup (map fst (ranking_rows r))
  /\ (forall i s, In (i, s) (ranking_rows r) -> i < List.length documents)
  /\ (explain = false ->
      Permutation (map fst (ranking_rows r))
                  (seq 0 (List.length documents))).
Proof.
  intros Hr.
  destruct (returned_rows _ _ _ _ _ Hr) as (scores & n & Hlen & Hrows & Hall).
  assert (Hnodup : NoDup (map fst (rank scores))).
  { apply (Permutation_NoDup (Permutation_sym (rank_permutation scores))).
    apply seq_NoDup. }
  repeat split.
  - rewrite Hrows. apply StronglySorted_firstn, rank_descending.
  - rewrite Hrows, <- firstn_map. apply NoDup_firstn, Hnodup.
  - intros i s Hin. rewrite Hrows in Hin. apply In_firstn in Hin.
    apply (in_map fst) in Hin. cbn [fst] in Hin.
    apply (Permutation_in _ (rank_permutation scores)) in Hin.
    apply in_seq in Hin. lia.
  - intros He. rewrite (Hall He), <- Hlen. apply rank_permutation.
Qed.

End WithArgsort.
End Order.

(** ** The small backend keeps the promises of the libraries *)

Module DemoFacts.
Import Demo.

Lemma insert_index_permutation (scores : list score) (i : nat) (l : list nat) :
  Permutation (insert_index scores i l) (i :: l).
Proof.
  induction l as [|j l IH]; [reflexivity|].
  cbn. destruct (Qle_bool _ _); [reflexivity|].
  rewrite IH. apply perm_swap.
Qed.

Lemma insert_index_sorted (scores : list score) (i : nat) (l : list nat) :
  let R := fun a b => Qle (nth a scores 0%Q) (nth b scores 0%Q) in
  StronglySorted R l -> StronglySorted R (insert_index scores i l).
Proof.
  intros R H. induction H as [|j l Hl IH Hj]; [repeat constructor|].
  cbn. destruct (Qle_bool (nth i scores 0%Q) (nth j scores 0%Q)) eqn:Hij.
  - apply Qle_bool_iff in Hij.
    constructor; [constructor; assumption|].
    constructor; [exact Hij|].
    rewrite Forall_forall in *. intros k Hk.
    unfold R. apply (Qle_trans _ _ _ Hij). apply Hj, Hk.
  - constructor; [exact IH|].
    rewrite Forall_forall in *. intros k Hk.
    apply (Permutation_in _ (insert_index_permutation scores i l)) in Hk.
    destruct Hk as [<-|Hk]; [|apply Hj, Hk].
    unfold R. apply Qlt_le_weak, Qnot_le_lt. intros Hle.
    apply Qle_bool_iff in Hle. congruence.
Qed.

Lemma stable_argsort_ok : argsort_ok backend.
Proof.
  intros scores. cbn [argsort backend]. unfold stable_argsort.
  generalize (seq 0 (List.length scores)) as l.
  induction l as [|i l [IHp IHs]]; [split; constructor|].
  cbn [fold_right]. split.
  - rewrite insert_index_permutation, IHp. reflexivity.
  - apply insert_index_sorted, IHs.
Qed.

(** The insertion sort is stable: of two equal scores the one that comes
    first in the array comes first in the result. *)
Lemma insert_index_stable (scores : list score) (i : nat) (l : list nat) :
  let T := fun a b =>
             (nth a scores 0%Q == nth b scores 0%Q)%Q -> a < b in
  Forall (fun j => i < j) l ->
  StronglySorted T l -> StronglySorted T (insert_index scores i l).
Proof.
  intros T Hgt H. induction H as [|j l Hl IH Hj]; [repeat constructor|].
  apply Forall_cons_iff in Hgt. destruct Hgt as [Hij Hgt].
  cbn. destruct (Qle_bool (nth i scores 0%Q) (nth j scores 0%Q)) eqn:Hle.
  - constructor; [constructor; assumption|].
    constructor; [intros _; exact Hij|].
    rewrite Forall_forall in *. intros k Hk _. exact (Hgt k Hk).
  - constructor; [exact (IH Hgt)|].
    rewrite Forall_forall in *. intros k Hk.
    apply (Permutation_in _ (insert_index_permutation scores i l)) in Hk.
    destruct Hk as [<-|Hk]; [|apply Hj, Hk].
    intros Heq. exfalso.
    apply Bool.not_true_iff_false in Hle. apply Hle.
    apply Qle_bool_iff. rewrite Heq. apply Qle_refl.
Qed.

Lemma stable_argsort_from (scores : list score) (n start : nat) :
  let T := fun a b =>
             (nth a scores 0%Q == nth b scores 0%Q)%Q -> a < b in
  let sorted := fold_right (insert_index scores) [] (seq start n) in
  Forall (fun j => start <= j) sorted /\ StronglySorted T sorted.
Proof.
  cbv zeta. revert start. induction n as [|n IH]; intros start.
  - split; constructor.
  - cbn [seq fold_right]. destruct (IH (S start)) as [Hge Hsorted]. split.
    + apply Forall_forall. intros k Hk.
      apply (Permutation_in _ (insert_index_permutation _ _ _)) in Hk.
      rewrite Forall_forall in Hge.
      destruct Hk as [<-|Hk]; [lia|]. specialize (Hge k Hk). lia.
    + apply insert_index_stable; [|exact Hsorted].
      rewrite Forall_forall in *. intros k Hk. specialize (Hge k Hk). lia.
Qed.

(** With a stable [argsort], rows with equal scores come with the larger
    index first. *)
Lemma stable_rank_ties (scores : list score) :
  StronglySorted (fun x y => (snd x == snd y)%Q -> fst y < fst x)
                 (rank (B := backend) scores).
Proof.
  rewrite rank_rows. apply StronglySorted_map. cbn [fst snd].
  destruct (stable_argsort_from scores (List.length scores) 0) as [_ H].
  apply StronglySorted_rev in H. cbn [argsort backend].
  revert H. apply StronglySorted_impl.
  intros a b Hab Heq. apply Hab. symmetry. exact Heq.
Qed.

Lemma first_seen_spec (ts seen : list token) :
  NoDup seen ->
  NoDup (first_seen seen ts) /\
  forall w, In w (first_seen seen ts) <-> In w seen \/ In w ts.
Proof.
  revert seen. induction ts as [|t ts IH]; intros seen Hseen.
  - cbn. split; [exact Hseen|]. intros w. tauto.
  - cbn [first_seen].
    destruct (existsb (String.eqb t) seen) eqn:Hex.
    + destruct (IH seen Hseen) as [Hn Hin]. split; [exact Hn|].
      intros w. rewrite Hin. cbn.
      apply existsb_exists in Hex. destruct Hex as (u & Hu & Heq).
      apply String.eqb_eq in Heq. subst u.
      split; [tauto|]. intros [H|[<-|H]]; auto.
    + assert (Hnot : ~ In t seen).
      { intros Hin. apply Bool.not_true_iff_false in Hex. apply Hex.
        apply existsb_exists. exists t. split; [exact Hin|].
        apply String.eqb_refl. }
      assert (Hseen' : NoDup (seen ++ [t])).
      { apply NoDup_app; [exact Hseen|repeat constructor; intros []|].
        intros x Hx [<-|[]]. exact (Hnot Hx). }
      destruct (IH _ Hseen') as [Hn Hin]. split; [exact Hn|].
      intros w. rewrite Hin, in_app_iff. cbn. tauto.
Qed.

Lemma first_seen_set_ok : set_ok backend.
Proof.
  intros document. cbn [set_iter backend].
  destruct (first_seen_spec document [] (NoDup_nil _)) as [Hn Hin].
  split; [exact Hn|]. intros w. rewrite Hin. cbn. tauto.
Qed.

Lemma index_of_in (t : token) (ts : list token) :
  In t ts -> index_of t ts <> None.
Proof.
  induction ts as [|u ts IH]; [intros []|].
  intros Hin. cbn. destruct (String.eqb t u) eqn:Heq; [discriminate|].
  destruct Hin as [->|Hin]; [rewrite String.eqb_refl in Heq; discriminate|].
  destruct (index_of t ts); [discriminate|]. exfalso. exact (IH Hin eq_refl).
Qed.

Lemma first_seen_dictionary_ok : dictionary_ok backend.
Proof.
  intros documents document t Hdoc Ht. cbn [token2id Dictionary backend].
  apply index_of_in.
  destruct (first_seen_spec (List.concat documents) [] (NoDup_nil _))
    as [_ Hin].
  apply Hin. right. apply in_concat. exists document. split; assumption.
Qed.

End DemoFacts.

(** ** Equal scores *)

(** Two identical documents score the same, and the second comes first. *)
Lemma C1_equal_scores_larger_index_first :
  fst (similarity_query "red car" ["green bicycle"; "green bicycle"] false
         (Demo.ready [] nltk_stop_words))
  = Return (Some (Ranked [(1, 0%Q); (0, 0%Q)]))
  /\ ~ ties_by_index [(1, 0%Q); (0, 0%Q)].
Proof.
  split; [vm_compute; reflexivity|].
  intros H. apply StronglySorted_inv in H. destruct H as [_ H].
  apply Forall_inv in H. cbn in H.
  specialize (H (Qeq_refl 0)). lia.
Qed.

Lemma C1_sorted_witness :
  let r := Ranked [(1, 0%Q); (0, 0%Q)] in
  descending (ranking_rows r)
  /\ NoDup (map fst (ranking_rows r))
  /\ (forall i s, In (i, s) (ranking_rows r) -> i < 2)
  /\ (false = false -> Permutation (map fst (ranking_rows r)) (seq 0 2)).
Proof.
  exact (C1_ranking_sorted_by_score_descending
           DemoFacts.stable_argsort_ok
           "red car" ["green bicycle"; "green bicycle"] false
           (Demo.ready [] nltk_stop_words)
           (Ranked [(1, 0%Q); (0, 0%Q)])
           ltac:(vm_compute; reflexivity)).
Defined.

(** ** The readiness gate on a threaded instance *)

Lemma C2_not_ready_witness :
  model_ready (Demo.loading None) = false
  /\ fst (similarity_query "fast red car" ["a quick red automobile"] true
            (Demo.loading None)) = Return None
  /\ dictionary
       (snd (similarity_query "fast red car" ["a quick red automobile"] true
               (Demo.loading None))) = None.
Proof.
  destruct (C2_not_ready_returns_None
              "fast red car" ["a quick red automobile"] true
              (Demo.loading None) eq_refl) as (Hrun & _ & _ & Hd & _).
  split; [reflexivity|]. split.
  - rewrite Hrun. reflexivity.
  - rewrite Hd. reflexivity.
Defined.

(** A call on an instance whose model is still loading returns [None] and
    builds no dictionary, no TF-IDF model and no similarity matrix. *)
Lemma C8_nothing_built_before_ready :
  let call := similarity_query "fast red car" ["a quick red automobile"] false
                (Demo.loading None) in
  fst call = Return None
  /\ dictionary (snd call) = None
  /\ tfidf (snd call) = None
  /\ similarity_matrix (snd call) = None.
Proof. vm_compute. repeat split. Qed.

Lemma C8_rebuilt_witness :
  dictionary
    (snd (similarity_query "car" ["bicycle"; "car"] false
            (Demo.ready [] nltk_stop_words)))
  = Some ["bicycle"; "car"].
Proof.
  destruct (C8_structures_rebuilt_by_each_ranking_call
              "car" ["bicycle"; "car"] false (Demo.ready [] nltk_stop_words)
              (Ranked [(1, 1%Q); (0, 0%Q)])
              ltac:(vm_compute; reflexivity))
    as [(corpus & query & idx & Hc & Hq & _ & Hd & _) _].
  rewrite Hd.
  vm_compute in Hc. vm_compute in Hq.
  injection Hc as <-. injection Hq as <-. reflexivity.
Defined.

(** ** Which explanation a row carries *)

Section Explanations.
Context {B : Backend}.

Lemma find_terms_length (d : DictionaryT) (m : MatrixT) (query : list token)
      (corpus : list (list token)) (k : nat)
      (found : list (list (token * score))) :
  find_terms d m query corpus k = Return found ->
  List.length found = List.length query * List.length corpus.
Proof.
  revert found. induction query as [|term rest IH]; intros found H; cbn in H.
  - injection H as <-. reflexivity.
  - destruct (token2id d term); [|discriminate].
    destruct (find (unregistered d) (words_scanned corpus)); [discriminate|].
    destruct (find_terms d m rest corpus k) as [later|]; [|discriminate].
    injection H as <-. rewrite length_app, length_map, (IH later eq_refl).
    reflexivity.
Qed.

Lemma combine_app_left {X Y : Type} (l : list X) (l1 l2 : list Y) :
  List.length l1 = List.length l -> combine l (l1 ++ l2) = combine l l1.
Proof.
  revert l1. induction l as [|x l IH]; intros [|y l1] H;
    try discriminate H; [reflexivity|].
  cbn. rewrite IH by (cbn in H; lia). reflexivity.
Qed.

Lemma map_snd_combine {X Y : Type} (l : list X) (l' : list Y) :
  List.length l = List.length l' -> map snd (combine l l') = l'.
Proof.
  revert l'. induction l as [|x l IH]; intros [|y l'] H; cbn in *;
    try discriminate; try reflexivity.
  rewrite IH by lia. reflexivity.
Qed.

(** The explanations of the rows, read from the first row to the last, are
    those of the documents in the order in which the caller gave them, all
    for the first term of the query; the indexes of the rows follow the
    scores.  With no query term there is no row. *)
Lemma explanations_follow_input_order
      (query_string : string) (documents : list string) (self : DocSim)
      (rows : list (nat * score * list (token * score))) :
  argsort_ok B ->
  fst (similarity_query query_string documents true self)
  = Return (Some (Explained rows)) ->
  exists corpus query d m,
    fst (for_each preprocess documents self) = Return corpus /\
    fst (preprocess query_string self) = Return query /\
    dictionary (snd (similarity_query query_string documents true self))
    = Some d /\
    similarity_matrix (snd (similarity_query query_string documents true self))
    = Some m /\
    match query with
    | [] => rows = []
    | term :: _ =>
        map snd rows
        = map (fun document =>
                 explanation
                   (fun w => matrix_getitem m (id_in d term) (id_in d w))
                   (set_iter document) 5) corpus
    end.
Proof.
  intros Hargsort. rewrite similarity_query_run. cbn [fst snd].
  unfold answer, after. rewrite preprocess_all_run, preprocess_run. cbn [fst].
  destruct (model_ready self); [|discriminate].
  destruct (normalize_all (stopwords self) documents) as [corpus|e];
    [|discriminate].
  destruct (normalize (stopwords self) query_string) as [query|e];
    [|discriminate].
  destruct (similarity_index self) as [idx|]; [|discriminate].
  cbv zeta.
  set (d := Dictionary (corpus ++ [query])).
  set (tf := TfidfModel d).
  set (m := SparseTermSimilarityMatrix idx d tf 100).
  destruct (find_terms d m query corpus 5) as [found|e] eqn:Hfound;
    [|discriminate].
  intros H. injection H as <-.
  exists corpus, query, d, m. repeat split.
  destruct query as [|term rest].
  - cbn in Hfound. injection Hfound as <-. apply combine_nil.
  - cbn [find_terms] in Hfound. unfold id_in at 1.
    destruct (token2id d term) as [idx1|]; [|discriminate].
    destruct (find (unregistered d) (words_scanned corpus)); [discriminate|].
    destruct (find_terms d m rest corpus 5) as [later|]; [|discriminate].
    injection Hfound as <-.
    assert (Hlen : List.length (rank (scores_for d tf m (term :: rest) corpus))
                   = List.length corpus)
      by (rewrite (rank_length Hargsort); apply scores_for_length).
    rewrite combine_app_left by (rewrite length_map; symmetry; exact Hlen).
    apply map_snd_combine. rewrite length_map. exact Hlen.
Qed.

End Explanations.

(** C3: the query and the documents of the example of the specification,
    the two documents exchanged.  Document 1, "a quick red automobile", has
    the better score and comes first; its row carries the (empty) list of the
    terms of document 0 that are similar to "fast", and the row of document
    0, "slow green bicycle", carries [("quick", 0.8)], a term of
    document 1. *)
Theorem C3_row_carries_explanation_of_another_document :
  fst (similarity_query "fast red car"
         ["slow green bicycle"; "a quick red automobile"] true
         (Demo.ready [("fast", "quick", 0.8%Q); ("car", "automobile", 0.75%Q)]
                     nltk_stop_words))
  = Return (Some (Explained
                    [(1, (15937500000000 # 18749999836129)%Q, []);
                     (0, 0%Q, [("quick", 0.8%Q)])])).
Proof. vm_compute. reflexivity. Qed.

(** ** The explanation extractor *)

Section Sorting.
Context {A : Type}.

Lemma insert_desc_permutation (x : A * score) (l : list (A * score)) :
  Permutation (insert_desc x l) (x :: l).
Proof.
  induction l as [|y l IH]; [reflexivity|].
  cbn. destruct (Qle_bool (snd y) (snd x)); [reflexivity|].
  rewrite IH. apply perm_swap.
Qed.

Lemma sorted_desc_permutation (l : list (A * score)) :
  Permutation (sorted_desc l) l.
Proof.
  induction l as [|x l IH]; [reflexivity|].
  unfold sorted_desc in *. cbn [fold_right].
  rewrite insert_desc_permutation, IH. reflexivity.
Qed.

Lemma insert_desc_sorted (x : A * score) (l : list (A * score)) :
  let R := fun a b : A * score => (snd b <= snd a)%Q in
  StronglySorted R l -> StronglySorted R (insert_desc x l).
Proof.
  intros R H. induction H as [|y l Hl IH Hy]; [repeat constructor|].
  cbn. destruct (Qle_bool (snd y) (snd x)) eqn:Hyx.
  - apply Qle_bool_iff in Hyx.
    constructor; [constructor; assumption|].
    constructor; [exact Hyx|].
    rewrite Forall_forall in *. intros z Hz.
    unfold R. apply (Qle_trans _ (snd y)); [apply Hy, Hz|exact Hyx].
  - constructor; [exact IH|].
    rewrite Forall_forall in *. intros z Hz.
    apply (Permutation_in _ (insert_desc_permutation x l)) in Hz.
    destruct Hz as [<-|Hz]; [|apply Hy, Hz].
    unfold R. apply Qlt_le_weak, Qnot_le_lt. intros Hle.
    apply Qle_bool_iff in Hle. congruence.
Qed.

Lemma sorted_desc_sorted (l : list (A * score)) :
  StronglySorted (fun a b => (snd b <= snd a)%Q) (sorted_desc l).
Proof.
  induction l as [|x l IH]; [constructor|].
  unfold sorted_desc in *. cbn [fold_right]. apply insert_desc_sorted, IH.
Qed.

End Sorting.

Section ExplanationFacts.

Variable sim : token -> score.
Variable distinct_terms : list token.
Variable top_k : nat.

Lemma explanation_in (w : token) (s : score) :
  In (w, s) (explanation sim distinct_terms top_k) ->
  In w distinct_terms /\ s = sim w /\ (0 < s)%Q.
Proof.
  unfold explanation. intros H. apply In_firstn in H.
  apply (Permutation_in _ (sorted_desc_permutation _)) in H.
  apply filter_In in H. destruct H as [H Hpos].
  apply in_map_iff in H. destruct H as (w' & Heq & Hw).
  injection Heq as -> ->. repeat split; [exact Hw|].
  cbn [snd] in Hpos. apply Qnot_le_lt. intros Hle.
  apply Qle_bool_iff in Hle. rewrite Hle in Hpos. discriminate.
Qed.

Lemma explanation_length :
  List.length (explanation sim distinct_terms top_k) <= top_k.
Proof. apply firstn_le_length. Qed.

Lemma explanation_sorted :
  StronglySorted (fun a b => (snd b <= snd a)%Q)
                 (explanation sim distinct_terms top_k).
Proof. apply StronglySorted_firstn, sorted_desc_sorted. Qed.

Lemma explanation_distinct :
  NoDup distinct_terms ->
  NoDup (map fst (explanation sim distinct_terms top_k)).
Proof.
  intros Hnodup. unfold explanation. rewrite <- firstn_map.
  apply NoDup_firstn.
  apply (Permutation_NoDup
           (Permutation_map fst (Permutation_sym (sorted_desc_permutation _)))).
  set (scored := map (fun w => (w, sim w)) distinct_terms).
  assert (Hscored : NoDup (map fst scored)).
  { unfold scored. rewrite map_map. cbn. rewrite map_id. exact Hnodup. }
  clearbody scored. induction scored as [|x l IH]; [constructor|].
  cbn in Hscored. apply NoDup_cons_iff in Hscored. destruct Hscored as [Hx Hl].
  cbn [filter]. cbv beta.
  destruct (Qle_bool _ 0); cbn [negb]; [exact (IH Hl)|].
  cbn [map]. constructor; [|exact (IH Hl)].
  intros Hin. apply Hx. apply in_map_iff in Hin.
  destruct Hin as (y & Hy & Hin). apply filter_In in Hin.
  apply in_map_iff. exists y. tauto.
Qed.

End ExplanationFacts.

Section Extractor.
Context {B : Backend}.
Hypothesis Hset : set_ok B.

Variable d : DictionaryT.
Variable m : MatrixT.
Variable corpus : list (list token).
Variable term_limit : nat.

Lemma unregistered_true (t : token) :
  unregistered d t = true <-> token2id d t = None.
Proof. unfold unregistered. destruct (token2id d t); split; congruence. Qed.

Lemma scanned_word (w : token) :
  In w (words_scanned corpus) <->
  exists document, In document corpus /\ In w document.
Proof.
  unfold words_scanned. rewrite in_flat_map. split.
  - intros (doc & Hdoc & Hw). exists doc. split; [exact Hdoc|].
    apply (proj2 (Hset doc)), Hw.
  - intros (doc & Hdoc & Hw). exists doc. split; [exact Hdoc|].
    apply (proj2 (Hset doc)), Hw.
Qed.

Lemma scan_fails :
  (exists w, find (unregistered d) (words_scanned corpus) = Some w)
  <-> unknown_document_term d corpus.
Proof.
  split.
  - intros (w & Hfind). apply find_some in Hfind. destruct Hfind as [Hin Hw].
    apply scanned_word in Hin. destruct Hin as (doc & Hdoc & Hin).
    exists doc, w. repeat split; try assumption. apply unregistered_true, Hw.
  - intros (doc & w & Hdoc & Hw & Hnone).
    destruct (find (unregistered d) (words_scanned corpus)) as [w'|] eqn:Hfind;
      [exists w'; reflexivity|].
    exfalso.
    assert (Hin : In w (words_scanned corpus))
      by (apply scanned_word; exists doc; split; assumption).
    pose proof (find_none _ _ Hfind w Hin) as Hfalse.
    apply unregistered_true in Hnone. congruence.
Qed.

Lemma find_terms_raises (query : list token) (e : exn) :
  find_terms d m query corpus term_limit = Raise e ->
  exists t, e = KeyError t /\ token2id d t = None.
Proof.
  induction query as [|term rest IH]; cbn; [discriminate|].
  destruct (token2id d term) as [idx1|] eqn:Hterm.
  - destruct (find (unregistered d) (words_scanned corpus)) as [w|] eqn:Hfind.
    + intros H. injection H as <-. exists w. split; [reflexivity|].
      apply find_some in Hfind. apply unregistered_true, Hfind.
    + destruct (find_terms d m rest corpus term_limit); [discriminate|].
      intros H. injection H as <-. apply IH. reflexivity.
  - intros H. injection H as <-. exists term. split; [reflexivity|exact Hterm].
Qed.

Lemma find_terms_fails_iff (query : list token) :
  (exists e, find_terms d m query corpus term_limit = Raise e)
  <-> (exists t, In t query /\ token2id d t = None)
      \/ (query <> [] /\ unknown_document_term d corpus).
Proof.
  induction query as [|term rest IH].
  - cbn. split.
    + intros (e & H). discriminate.
    + intros [(t & [] & _)|(H & _)]. contradiction H. reflexivity.
  - cbn [find_terms].
    destruct (token2id d term) as [idx1|] eqn:Hterm.
    + destruct (find (unregistered d) (words_scanned corpus)) as [w|] eqn:Hfind.
      * split; [intros _|intros _; eexists; reflexivity].
        right. split; [discriminate|]. apply scan_fails. exists w. exact Hfind.
      * assert (Hknown : ~ unknown_document_term d corpus).
        { intros H. apply scan_fails in H. destruct H as (w & Hw).
          congruence. }
        split.
        -- intros (e & He).
           destruct (find_terms d m rest corpus term_limit) as [later|e'];
             [discriminate|].
           destruct (proj1 IH (ex_intro _ e' eq_refl))
             as [(t & Ht & Hnone)|(_ & Hdoc)]; [|contradiction].
           left. exists t. split; [right; exact Ht|exact Hnone].
        -- intros [(t & [<-|Ht] & Hnone)|(_ & Hdoc)];
             [congruence| |contradiction].
           destruct (proj2 IH (or_introl (ex_intro _ t (conj Ht Hnone))))
             as (e & He).
           rewrite He. exists e. reflexivity.
    + split; [intros _|intros _; eexists; reflexivity].
      left. exists term. split; [left; reflexivity|exact Hterm].
Qed.

Lemma find_terms_returns (query : list token)
      (found : list (list (token * score))) :
  find_terms d m query corpus term_limit = Return found ->
  found
  = flat_map
      (fun term =>
         map (fun document =>
                explanation
                  (fun w => matrix_getitem m (id_in d term) (id_in d w))
                  (set_iter document) term_limit) corpus) query.
Proof.
  revert found.
  induction query as [|term rest IH]; intros found; cbn [find_terms flat_map].
  - intros H. injection H as <-. reflexivity.
  - destruct (token2id d term) as [idx1|] eqn:Hterm; [|discriminate].
    replace (id_in d term) with idx1
      by (unfold id_in; rewrite Hterm; reflexivity).
    destruct (find (unregistered d) (words_scanned corpus)); [discriminate|].
    destruct (find_terms d m rest corpus term_limit) as [later|];
      [|discriminate].
    intros H. injection H as <-. rewrite (IH later eq_refl). reflexivity.
Qed.

(** C9, as amended: once the dictionary and the matrix are built,
    [_find_similar_terms] fails exactly when a query term is not registered,
    or the query has a term and some term of a document is not registered
    (the terms of the documents are looked up inside the loop over the query
    terms); it fails with the key error of a term that is not registered.
    When it returns, the list holds, for each query term and each document in
    turn, the explanation of the specification: the distinct terms of the
    document with their matrix entry for the query term, only the strictly
    positive scores, sorted descending, at most [term_limit] of them. *)
Theorem C9_explanation_per_query_term_and_document
        (query : list token) (self : DocSim) :
  dictionary self = Some d ->
  similarity_matrix self = Some m ->
  let run := fst (_find_similar_terms query corpus term_limit self) in
  ((exists e, run = Raise e)
   <-> (exists t, In t query /\ token2id d t = None)
       \/ (query <> [] /\
           exists document w,
             In document corpus /\ In w document /\ token2id d w = None))
  /\ (forall e, run = Raise e ->
        exists t, e = KeyError t /\ token2id d t = None)
  /\ (forall found, run = Return found ->
        found
        = flat_map
            (fun term =>
               map (fun document =>
                      explanation
                        (fun w => matrix_getitem m (id_in d term) (id_in d w))
                        (set_iter document) term_limit) corpus) query
        /\ Forall (fun terms =>
                     List.length terms <= term_limit
                     /\ StronglySorted (fun a b => (snd b <= snd a)%Q) terms
                     /\ Forall (fun ws => (0 < snd ws)%Q) terms
                     /\ NoDup (map fst terms)) found).
Proof.
  intros Hd Hm. cbv zeta.
  rewrite (find_similar_terms_run d m) by assumption. cbn [fst].
  split; [apply find_terms_fails_iff|].
  split; [apply find_terms_raises|].
  intros found Hfound. apply find_terms_returns in Hfound.
  split; [exact Hfound|].
  subst found. apply Forall_forall. intros terms Hterms.
  apply in_flat_map in Hterms. destruct Hterms as (term & _ & Hterms).
  apply in_map_iff in Hterms. destruct Hterms as (doc & <- & _).
  split; [apply explanation_length|].
  split; [apply explanation_sorted|].
  split.
  - apply Forall_forall. intros [w s] Hws.
    apply explanation_in in Hws. cbn. tauto.
  - apply explanation_distinct. apply (proj1 (Hset doc)).
Qed.

End Extractor.

(** With no query term the documents are not looked at: the call returns
    although "zebra" was never registered. *)
Lemma C9_unregistered_document_term_without_failure :
  @token2id Demo.backend ["bicycle"; "car"] "zebra" = None
  /\ dictionary Demo.queried = Some ["bicycle"; "car"]
  /\ fst (_find_similar_terms [] [["zebra"]] 5 Demo.queried) = Return [].
Proof. vm_compute. repeat split. Qed.

Lemma C9_explanation_witness :
  fst (_find_similar_terms ["car"] [["bicycle"; "bicycle"]; ["car"]] 5
         Demo.queried)
  = Return [[("bicycle", 0.4%Q)]; [("car", 1%Q)]].
Proof.
  destruct (C9_explanation_per_query_term_and_document
              DemoFacts.first_seen_set_ok
              ["bicycle"; "car"]
              (Demo.entry [("car", "bicycle", 0.4%Q)] ["bicycle"; "car"])
              [["bicycle"; "bicycle"]; ["car"]] 5 ["car"] Demo.queried
              eq_refl eq_refl) as (_ & _ & Hfound).
  destruct (fst (_find_similar_terms ["car"] [["bicycle"; "bicycle"]; ["car"]]
                   5 Demo.queried)) as [found|e] eqn:Hrun.
  - destruct (Hfound found eq_refl) as [-> _]. reflexivity.
  - vm_compute in Hrun. discriminate Hrun.
Defined.

(** ** A well-formed call returns a ranking *)

Section Returns.
Context {B : Backend}.
Hypothesis Hset : set_ok B.
Hypothesis Hdictionary : dictionary_ok B.

Lemma normalize_all_returns (words : list string) (docs : list string) :
  exists corpus, normalize_all (Some words) docs = Return corpus.
Proof.
  induction docs as [|doc docs [corpus IH]]; [eexists; reflexivity|].
  cbn [normalize_all]. unfold normalize at 1. rewrite IH.
  destruct (tokens_of doc); eexists; reflexivity.
Qed.

Lemma normalize_returns (words : list string) (doc : string) :
  normalize (Some words) doc = Return (without words (tokens_of doc)).
Proof. unfold normalize. destruct (tokens_of doc); reflexivity. Qed.

(** Every term the extractor looks up was given an id when the dictionary
    was built from the corpus and the query. *)
Lemma find_terms_of_call_returns (idx : SimilarityIndex)
      (query : list token) (corpus : list (list token)) (k : nat) :
  let d := Dictionary (corpus ++ [query]) in
  let m := SparseTermSimilarityMatrix idx d (TfidfModel d) 100 in
  exists found, find_terms d m query corpus k = Return found.
Proof.
  cbv zeta.
  set (d := Dictionary (corpus ++ [query])).
  set (m := SparseTermSimilarityMatrix idx d (TfidfModel d) 100).
  destruct (find_terms d m query corpus k) as [found|e] eqn:Hrun;
    [exists found; reflexivity|].
  exfalso.
  destruct (proj1 (find_terms_fails_iff Hset d m corpus k query)
                  (ex_intro _ e Hrun))
    as [(t & Ht & Hnone)|(_ & doc & w & Hdoc & Hw & Hnone)].
  - apply (Hdictionary (corpus ++ [query]) query t); try assumption.
    apply in_or_app. right. left. reflexivity.
  - apply (Hdictionary (corpus ++ [query]) doc w); try assumption.
    apply in_or_app. left. exact Hdoc.
Qed.

(** On an instance whose model is loaded and whose stopwords are assigned
    the call raises nothing. *)
Lemma similarity_query_returns (query_string : string)
      (documents : list string) (explain : bool) (self : DocSim)
      (words : list string) (idx : SimilarityIndex) :
  model_ready self = true ->
  stopwords self = Some words ->
  similarity_index self = Some idx ->
  exists r,
    fst (similarity_query query_string documents explain self)
    = Return (Some r).
Proof.
  intros Hready Hwords Hidx.
  rewrite similarity_query_run. cbn [fst]. unfold answer.
  rewrite Hready, Hwords, Hidx.
  destruct (normalize_all_returns words documents) as [corpus ->].
  rewrite normalize_returns. cbv zeta.
  destruct explain; [|eexists; reflexivity].
  destruct (find_terms_of_call_returns
              idx (without words (tokens_of query_string)) corpus 5)
    as [found ->].
  eexists. reflexivity.
Qed.

End Returns.

(** ** A document without tokens *)

Section EmptyDocument.
Variable Base : Backend.
Variable idf : @TfidfT Base -> nat -> Q.

(** The backend whose vectors and scores are those of the specification. *)
Local Abbreviation S := (Spec.backend Base idf).

Lemma soft_cosine_empty_document (M : nat -> nat -> Q) (q : list (nat * Q)) :
  Spec.soft_cosine M q [] = 0%Q.
Proof.
  unfold Spec.soft_cosine. cbn [Spec.bilinear map fold_right].
  replace (Qeq_bool (Spec.Qsqrt 0) 0) with true by (vm_compute; reflexivity).
  rewrite Bool.orb_true_r. reflexivity.
Qed.

Lemma spec_score_of_empty_document
      (d : @DictionaryT S) (tf : @TfidfT S) (m : @MatrixT S) (q : @Vec S) :
  @softcos S m q (@tfidf_getitem S tf (@doc2bow S d [])) = 0%Q.
Proof. cbn. apply soft_cosine_empty_document. Qed.

Lemma normalize_all_nth (sw : option (list string)) (docs : list string)
      (corpus : list (list token)) (i : nat) (doc : string) :
  @normalize_all sw docs = Return corpus ->
  nth_error docs i = Some doc ->
  exists ts, normalize sw doc = Return ts /\ nth_error corpus i = Some ts.
Proof.
  revert corpus i. induction docs as [|doc0 docs IH]; intros corpus i H Hi.
  - destruct i; discriminate.
  - cbn in H. destruct (normalize sw doc0) as [ts0|] eqn:H0; [|discriminate].
    destruct (normalize_all sw docs) as [tss|]; [|discriminate].
    injection H as <-. destruct i as [|i].
    + injection Hi as <-. exists ts0. split; [exact H0|reflexivity].
    + exact (IH tss i eq_refl Hi).
Qed.

Lemma scores_for_nth (d : @DictionaryT S) (tf : @TfidfT S) (m : @MatrixT S)
      (query : list token) (corpus : list (list token)) (i : nat) :
  nth_error corpus i = Some [] ->
  nth i (@scores_for S d tf m query corpus) 0%Q = 0%Q.
Proof.
  intros Hi. unfold scores_for. rewrite map_map.
  apply nth_error_nth.
  rewrite nth_error_map, Hi. cbn [option_map]. f_equal.
  apply spec_score_of_empty_document.
Qed.

(** In a returned ranking every row of a document without tokens has score
    0, and the row is there unless the explanations cut it. *)
Lemma empty_document_rows
        (query_string : string) (documents : list string) (explain : bool)
        (self : @DocSim S) (r : ranking) (i : nat) (doc : string) :
  argsort_ok Base ->
  fst (similarity_query (B := S) query_string documents explain self)
  = Return (Some r) ->
  nth_error documents i = Some doc ->
  fst (preprocess (B := S) doc self) = Return [] ->
  (forall s, In (i, s) (ranking_rows r) -> s = 0%Q)
  /\ (explain = false
      \/ fst (preprocess (B := S) query_string self) <> Return [] ->
      In (i, 0%Q) (ranking_rows r)).
Proof.
  intros Hargsort Hr Hi Hdoc.
  assert (HargsortS : argsort_ok S) by exact Hargsort.
  rewrite preprocess_run in Hdoc. rewrite preprocess_run. cbn [fst] in *.
  rewrite similarity_query_run in Hr. cbn [fst] in Hr. unfold answer in Hr.
  destruct (model_ready self); [|discriminate].
  destruct (normalize_all (stopwords self) documents) as [corpus|e] eqn:Hc;
    [|discriminate].
  destruct (normalize_all_nth _ _ _ _ _ Hc Hi) as (ts & Hts & Hnth).
  rewrite Hdoc in Hts. injection Hts as <-.
  destruct (normalize (stopwords self) query_string) as [query|e];
    [|discriminate].
  destruct (similarity_index self) as [idx|]; [|discriminate].
  cbv zeta in Hr.
  set (d := Dictionary (corpus ++ [query])) in Hr.
  set (tf := TfidfModel d) in Hr.
  set (m := SparseTermSimilarityMatrix idx d tf 100) in Hr.
  set (scores := scores_for d tf m query corpus) in Hr.
  assert (Hzero : nth i scores 0%Q = 0%Q) by (apply scores_for_nth, Hnth).
  assert (Hlt : i < List.length scores).
  { unfold scores. rewrite scores_for_length.
    apply nth_error_Some. rewrite Hnth. discriminate. }
  assert (Hin : In (i, 0%Q) (rank scores)).
  { rewrite <- Hzero. apply (rank_contains HargsortS), Hlt. }
  destruct explain.
  - destruct (find_terms d m query corpus 5) as [found|e] eqn:Hfound;
      [|discriminate].
    injection Hr as <-. cbn [ranking_rows]. rewrite map_fst_combine. split.
    + intros s Hs. apply In_firstn in Hs.
      rewrite (rank_row_score _ _ _ Hs). exact Hzero.
    + intros [Hfalse|Hquery]; [discriminate|].
      rewrite firstn_all2; [exact Hin|].
      rewrite (rank_length HargsortS), (find_terms_length _ _ _ _ _ _ Hfound).
      unfold scores. rewrite scores_for_length.
      destruct query as [|t query]; [contradiction Hquery; reflexivity|].
      cbn. lia.
  - injection Hr as <-. cbn [ranking_rows]. split.
    + intros s Hs. rewrite (rank_row_score _ _ _ Hs). exact Hzero.
    + intros _. exact Hin.
Qed.

(** C4: with the soft cosine of the specification, a call of
    [similarity_query] on an instance whose model is loaded and whose
    stopwords are assigned raises nothing (no division error in particular)
    and returns a ranking in which a document whose normalized token sequence
    is empty has score 0: every row with its index has score 0, and there is
    such a row (without explanations, or with explanations when the query
    has a token). *)
Theorem C4_empty_document_scores_zero
        (query_string : string) (documents : list string) (explain : bool)
        (self : @DocSim S) (words : list string) (idx : @SimilarityIndex S)
        (i : nat) (doc : string) :
  argsort_ok Base -> set_ok Base -> dictionary_ok Base ->
  model_ready self = true ->
  stopwords self = Some words ->
  similarity_index self = Some idx ->
  nth_error documents i = Some doc ->
  fst (preprocess (B := S) doc self) = Return [] ->
  exists r : ranking,
    fst (similarity_query (B := S) query_string documents explain self)
    = Return (Some r)
    /\ (forall s, In (i, s) (ranking_rows r) -> s = 0%Q)
    /\ (explain = false
        \/ fst (preprocess (B := S) query_string self) <> Return [] ->
        In (i, 0%Q) (ranking_rows r)).
Proof.
  intros Hargsort Hset Hdictionary Hready Hwords Hidx Hi Hdoc.
  assert (HsetS : set_ok S) by exact Hset.
  assert (HdictionaryS : dictionary_ok S) by exact Hdictionary.
  destruct (similarity_query_returns
              HsetS HdictionaryS query_string documents explain self
              words idx Hready Hwords Hidx) as [r Hr].
  exists r. split; [exact Hr|].
  exact (empty_document_rows query_string documents explain self r i doc
                             Hargsort Hr Hi Hdoc).
Qed.

End EmptyDocument.

Lemma C4_empty_document_witness :
  exists r : ranking,
    fst (similarity_query (B := Demo.spec_backend)
           "car" ["the and of"; "car"] false
           (Demo.spec_ready nltk_stop_words)) = Return (Some r)
    /\ In (0, 0%Q) (ranking_rows r).
Proof.
  destruct (C4_empty_document_scores_zero
              Demo.backend (fun _ _ => 1%Q)
              "car" ["the and of"; "car"] false
              (Demo.spec_ready nltk_stop_words) nltk_stop_words [] 0
              "the and of"
              DemoFacts.stable_argsort_ok DemoFacts.first_seen_set_ok
              DemoFacts.first_seen_dictionary_ok
              eq_refl eq_refl eq_refl eq_refl
              ltac:(vm_compute; reflexivity)) as (r & Hr & _ & Hin).
  exists r. split; [exact Hr|]. exact (Hin (or_introl eq_refl)).
Defined.

(** ** The range of the scores *)

Section ScoreRange.
Variable Base : Backend.
Variable idf : @TfidfT Base -> nat -> Q.

Local Abbreviation S := (Spec.backend Base idf).

Hypothesis idf_not_negative : forall tf i, (0 <= idf tf i)%Q.

Lemma sum_not_negative (l : list Q) :
  Forall (fun a => (0 <= a)%Q) l -> (0 <= fold_right Qplus 0%Q l)%Q.
Proof.
  induction 1 as [|a l Ha Hl IH]; cbn [fold_right].
  - apply Qle_refl.
  - change (0 + 0 <= a + fold_right Qplus 0 l)%Q.
    apply Qplus_le_compat; assumption.
Qed.

Lemma bilinear_not_negative (M : nat -> nat -> Q) (x y : list (nat * Q)) :
  (forall i j, (0 <= M i j)%Q) ->
  not_negative x -> not_negative y ->
  (0 <= Spec.bilinear M x y)%Q.
Proof.
  intros HM Hx Hy. unfold Spec.bilinear.
  apply sum_not_negative, Forall_map.
  apply (Forall_impl _ (P := fun ia => (0 <= snd ia)%Q)); [|exact Hx].
  intros ia Hia. apply sum_not_negative, Forall_map.
  apply (Forall_impl _ (P := fun jb => (0 <= snd jb)%Q)); [|exact Hy].
  intros jb Hjb.
  apply Qmult_le_0_compat; [apply Qmult_le_0_compat|]; auto.
Qed.

Lemma Qsqrt_not_negative (x : Q) : (0 <= Spec.Qsqrt x)%Q.
Proof.
  unfold Spec.Qsqrt, Qle. cbn [Qnum Qden]. rewrite Z.mul_1_r.
  apply Z.sqrt_nonneg.
Qed.

Lemma soft_cosine_not_negative (M : nat -> nat -> Q) (q d : list (nat * Q)) :
  (forall i j, (0 <= M i j)%Q) ->
  not_negative q -> not_negative d ->
  (0 <= Spec.soft_cosine M q d)%Q.
Proof.
  intros HM Hq Hd. unfold Spec.soft_cosine. cbv zeta.
  destruct (_ || _)%bool; [apply Qle_refl|].
  rewrite Qred_correct. unfold Qdiv.
  apply Qmult_le_0_compat; [apply bilinear_not_negative; assumption|].
  apply Qinv_le_0_compat, Qmult_le_0_compat; apply Qsqrt_not_negative.
Qed.

Lemma weigh_not_negative (f : nat -> Q) (bow : list (nat * nat)) :
  (forall i, (0 <= f i)%Q) -> not_negative (Spec.weigh f bow).
Proof.
  intros Hf. unfold not_negative, Spec.weigh.
  apply Forall_forall. intros iw Hin.
  apply filter_In in Hin. destruct Hin as [Hin _].
  apply in_map_iff in Hin. destruct Hin as ([i n] & <- & _). cbn [fst snd].
  apply Qmult_le_0_compat; [|apply Hf].
  unfold Qle, inject_Z. cbn [Qnum Qden]. lia.
Qed.

Lemma scores_not_negative
      (d : @DictionaryT S) (tf : @TfidfT S) (m : @MatrixT S)
      (query : list token) (corpus : list (list token)) (i : nat) :
  (forall a b, (0 <= @matrix_getitem Base m a b)%Q) ->
  (0 <= nth i (@scores_for S d tf m query corpus) 0%Q)%Q.
Proof.
  intros similarities_not_negative.
  destruct (nth_in_or_default i (@scores_for S d tf m query corpus) 0%Q)
    as [Hin|Hdefault]; [|rewrite Hdefault; apply Qle_refl].
  revert Hin. generalize (nth i (@scores_for S d tf m query corpus) 0%Q).
  intros s Hin. unfold scores_for in Hin.
  apply in_map_iff in Hin. destruct Hin as (b & <- & _). cbn.
  apply soft_cosine_not_negative.
  - exact similarities_not_negative.
  - apply weigh_not_negative. intros a. apply idf_not_negative.
  - apply weigh_not_negative. intros a. apply idf_not_negative.
Qed.


End ScoreRange.



(** ** The constructor of [DocSim_threaded] *)

Section Threaded.
Context {B : Backend}.

Lemma setup_model_stopwords (m : model_arg) (self : DocSim) :
  stopwords (snd (setup_model m self)) = stopwords self.
Proof. destruct self as [v ? ? ? ? ? ? ? ? ?], m, v; reflexivity. Qed.

Lemma thread_run_stopwords (self : DocSim) :
  stopwords (thread_run self) = stopwords self.
Proof.
  unfold thread_run. destruct (thread self) as [m|]; [|reflexivity].
  rewrite setup_model_stopwords. reflexivity.
Qed.

Lemma normalize_without_stopwords (doc : string) :
  normalize None doc
  = match tokens_of doc with
    | [] => Return []
    | _ :: _ => Raise (AttributeError "stopwords")
    end.
Proof. unfold normalize. destruct (tokens_of doc); reflexivity. Qed.

Lemma normalize_all_without_stopwords (docs : list string) :
  match normalize_all None docs with
  | Return _ => forall doc, In doc docs -> tokens_of doc = []
  | Raise e => e = AttributeError "stopwords"
  end.
Proof.
  induction docs as [|doc docs IH]; cbn [normalize_all].
  - intros doc [].
  - rewrite normalize_without_stopwords.
    destruct (tokens_of doc) eqn:Hdoc; [|reflexivity].
    destruct (normalize_all None docs); [|exact IH].
    intros doc' [<-|Hin]; [exact Hdoc|exact (IH doc' Hin)].
Qed.

(** C10, as amended: when [DocSim_threaded] is constructed with a stopword
    list, the constructor returns without assigning [stopwords], and the
    background thread does not assign it either, so the list is ignored.  On
    an instance without the attribute, [preprocess] returns the empty list
    for a text without tokens and raises the attribute error for any other
    text; [similarity_query] returns [None] until the model is ready, and
    from then on raises the attribute error as soon as a document or the
    query has a token. *)
Theorem C10_threaded_constructor_drops_stopwords
        (m : model_arg) (words : list string) (v : bool) :
  let self := snd (DocSim_threaded_init m (Some words) v new_object) in
  fst (DocSim_threaded_init m (Some words) v new_object) = Return tt
  /\ stopwords self = None
  /\ stopwords (thread_run self) = None
  /\ forall self' : DocSim,
      stopwords self' = None ->
      (forall doc,
          preprocess doc self'
          = (match tokens_of doc with
             | [] => Return []
             | _ :: _ => Raise (AttributeError "stopwords")
             end, self'))
      /\ (forall query_string documents explain,
             model_ready self' = false ->
             fst (similarity_query query_string documents explain self')
             = Return None)
      /\ (forall query_string documents explain,
             model_ready self' = true ->
             (exists text,
                 In text (documents ++ [query_string])
                 /\ tokens_of text <> []) ->
             fst (similarity_query query_string documents explain self')
             = Raise (AttributeError "stopwords")).
Proof.
  cbv zeta. split; [reflexivity|]. split; [reflexivity|].
  split; [rewrite thread_run_stopwords; reflexivity|].
  intros self' Hsw. split; [|split].
  - intros doc. rewrite preprocess_run, Hsw.
    rewrite normalize_without_stopwords. reflexivity.
  - intros q docs e Hready.
    rewrite similarity_query_run. cbn [fst]. unfold answer.
    rewrite Hready. reflexivity.
  - intros q docs e Hready (text & Hin & Htokens).
    rewrite similarity_query_run. cbn [fst]. unfold answer.
    rewrite Hready, Hsw.
    pose proof (normalize_all_without_stopwords docs) as Hall.
    destruct (normalize_all None docs) as [corpus|e']; [|rewrite Hall; reflexivity].
    rewrite normalize_without_stopwords.
    apply in_app_or in Hin. destruct Hin as [Hin|[<-|[]]].
    + contradiction (Htokens (Hall text Hin)).
    + destruct (tokens_of q); [contradiction Htokens|]; reflexivity.
Qed.

End Threaded.

(** A threaded instance built with its own stopwords: a query before the
    model is loaded gets [None], and a text without tokens is normalized to
    the empty list after the model is loaded; neither call raises. *)
Lemma C10_calls_that_do_not_fail :
  fst (similarity_query "fast red car" ["a quick red automobile"] false
         (Demo.loading (Some ["the"; "and"; "are"]))) = Return None
  /\ stopwords (Demo.loaded (Some ["the"; "and"; "are"])) = None
  /\ model_ready (Demo.loaded (Some ["the"; "and"; "are"])) = true
  /\ fst (preprocess "2020 !" (Demo.loaded (Some ["the"; "and"; "are"])))
     = Return [].
Proof. vm_compute. repeat split. Qed.

Lemma C10_attribute_error_witness :
  fst (similarity_query "fast red car" ["a quick red automobile"] false
         (Demo.loaded (Some ["the"; "and"; "are"])))
  = Raise (AttributeError "stopwords").
Proof.
  destruct (C10_threaded_constructor_drops_stopwords
              (B := Demo.backend) NoModel ["the"; "and"; "are"] true)
    as (_ & _ & Hsw & Hcalls).
  destruct (Hcalls (Demo.loaded (Some ["the"; "and"; "are"])) Hsw)
    as (_ & _ & Hquery).
  apply Hquery; [reflexivity|].
  exists "fast red car". split; [right; left; reflexivity|].
  vm_compute. discriminate.
Defined.

(** ** The text normalizer *)

Section Strings.

Lemma append_assoc (s1 s2 s3 : string) :
  ((s1 ++ s2) ++ s3 = s1 ++ (s2 ++ s3))%string.
Proof. induction s1 as [|c s1 IH]; [reflexivity|]. cbn. rewrite IH. reflexivity. Qed.

Lemma prefix_append (s1 s2 : string) : prefix s1 (s1 ++ s2) = true.
Proof.
  induction s1 as [|c s1 IH]; [destruct s2; reflexivity|].
  cbn. destruct (ascii_dec c c) as [_|Hne]; [exact IH|contradiction Hne; reflexivity].
Qed.

Lemma drop_append (s1 s2 : string) :
  Text.drop (String.length s1) (s1 ++ s2) = s2.
Proof. induction s1 as [|c s1 IH]; [reflexivity|exact IH]. Qed.

Lemma span_append (p : ascii -> bool) (s1 s2 : string) :
  all_chars p s1 = true ->
  Text.span p (s1 ++ s2) = String.length s1 + Text.span p s2.
Proof.
  induction s1 as [|c s1 IH]; [reflexivity|].
  cbn. intros H. apply andb_prop in H. destruct H as [Hc Hs].
  rewrite Hc, (IH Hs). reflexivity.
Qed.

Lemma sub_from_skip (m : string -> option nat) (repl s1 s2 : string) :
  Re.sub_from m repl (String.length s1) (s1 ++ s2) = Re.sub_from m repl 0 s2.
Proof.
  induction s1 as [|c s1 IH]; [reflexivity|]. exact IH.
Qed.

(** A match at the start of the text is replaced, and the substitution goes
    on after it. *)
Lemma sub_match (m : string -> option nat) (repl : string) (c : ascii)
      (matched rest : string) :
  m (String c (matched ++ rest)) = Some (S (String.length matched)) ->
  Re.sub m repl (String c (matched ++ rest)) = (repl ++ Re.sub m repl rest)%string.
Proof.
  intros H. unfold Re.sub. cbn [Re.sub_from]. rewrite H, sub_from_skip.
  reflexivity.
Qed.

(** Where no match starts the character is copied. *)
Lemma sub_no_match (m : string -> option nat) (repl : string) (c : ascii)
      (rest : string) :
  m (String c rest) = None ->
  Re.sub m repl (String c rest) = String c (Re.sub m repl rest).
Proof. intros H. unfold Re.sub. cbn [Re.sub_from]. rewrite H. reflexivity. Qed.

Lemma length_append (s1 s2 : string) :
  String.length (s1 ++ s2) = String.length s1 + String.length s2.
Proof. induction s1 as [|c s1 IH]; [reflexivity|]. cbn. rewrite IH. reflexivity. Qed.

End Strings.

Section Markup.

Variable body rest : string.
Hypothesis body_not_empty : body <> EmptyString.
Hypothesis body_without_brackets : all_chars Re.not_angle body = true.

Lemma match_angle_span (opening : string) :
  Re.match_angle opening (opening ++ body ++ String ">" rest)
  = Some (String.length opening + String.length body + 1).
Proof.
  unfold Re.match_angle.
  rewrite prefix_append, drop_append.
  rewrite (span_append _ _ _ body_without_brackets).
  cbn [Text.span Re.not_angle Text.one_of Ascii.eqb Bool.eqb orb negb].
  replace (Re.not_angle ">") with false by reflexivity.
  rewrite Nat.add_0_r, drop_append.
  destruct body as [|c b]; [contradiction body_not_empty; reflexivity|].
  reflexivity.
Qed.

Lemma sub_angle_span (o : ascii) (opening repl : string) :
  Re.sub (Re.match_angle (String o opening)) repl
         (String o opening ++ body ++ String ">" rest)
  = (repl ++ Re.sub (Re.match_angle (String o opening)) repl rest)%string.
Proof.
  pose proof (match_angle_span (String o opening)) as H.
  cbn [append] in *.
  replace (opening ++ body ++ String ">" rest)%string
    with ((opening ++ body ++ String ">" EmptyString) ++ rest)%string in *
    by (rewrite !append_assoc; reflexivity).
  apply sub_match. rewrite H. f_equal.
  rewrite !length_append. cbn [String.length]. lia.
Qed.

(** An image tag becomes [image_token]. *)
Lemma image_markup_replaced :
  Re.sub Re.re_img " image_token " ("<img" ++ body ++ String ">" rest)
  = (" image_token " ++ Re.sub Re.re_img " image_token " rest)%string.
Proof. apply (sub_angle_span "<" "img"). Qed.

(** Any other tag becomes a space. *)
Lemma tag_markup_stripped :
  Re.sub Re.re_tag " " ("<" ++ body ++ String ">" rest)
  = (" " ++ Re.sub Re.re_tag " " rest)%string.
Proof. apply (sub_angle_span "<" ""). Qed.

End Markup.

Section Urls.

Variable host rest : string.
Hypothesis host_not_empty : host <> EmptyString.
Hypothesis host_characters : all_chars Re.url_char host = true.
Hypothesis url_ends : Text.span Re.url_char rest = 0.

Lemma span_host : Text.span Re.url_char (host ++ rest) = String.length host.
Proof.
  rewrite (span_append _ _ _ host_characters), url_ends. apply Nat.add_0_r.
Qed.

Lemma re_url_http :
  Re.re_url ("http://" ++ host ++ rest) = Some (7 + String.length host).
Proof.
  unfold Re.re_url.
  change (prefix "http" ("http://" ++ host ++ rest)) with true.
  change (Text.drop 4 ("http://" ++ host ++ rest))
    with ("://" ++ host ++ rest)%string.
  change (prefix "s" ("://" ++ host ++ rest)) with false.
  cbv iota beta zeta.
  change (Text.drop 4 ("http://" ++ host ++ rest))
    with ("://" ++ host ++ rest)%string.
  rewrite (prefix_append "://" (host ++ rest)).
  change (Text.drop (4 + 3) ("http://" ++ host ++ rest))
    with (host ++ rest)%string.
  rewrite span_host.
  destruct host as [|c h]; [contradiction host_not_empty; reflexivity|].
  reflexivity.
Qed.

Lemma re_url_https :
  Re.re_url ("https://" ++ host ++ rest) = Some (8 + String.length host).
Proof.
  unfold Re.re_url.
  change (prefix "http" ("https://" ++ host ++ rest)) with true.
  change (Text.drop 4 ("https://" ++ host ++ rest))
    with ("s://" ++ host ++ rest)%string.
  change (prefix "s" ("s://" ++ host ++ rest)) with true.
  cbv iota beta zeta.
  change (Text.drop 5 ("https://" ++ host ++ rest))
    with ("://" ++ host ++ rest)%string.
  rewrite (prefix_append "://" (host ++ rest)).
  change (Text.drop (5 + 3) ("https://" ++ host ++ rest))
    with (host ++ rest)%string.
  rewrite span_host.
  destruct host as [|c h]; [contradiction host_not_empty; reflexivity|].
  reflexivity.
Qed.

(** A URL becomes [url_token]. *)
Lemma url_replaced (scheme : string) :
  scheme = "http://" \/ scheme = "https://" ->
  Re.sub Re.re_url " url_token " (scheme ++ host ++ rest)
  = (" url_token " ++ Re.sub Re.re_url " url_token " rest)%string.
Proof.
  intros [-> | ->].
  - apply (sub_match Re.re_url " url_token " "h" ("ttp://" ++ host) rest).
    exact re_url_http.
  - apply (sub_match Re.re_url " url_token " "h" ("ttps://" ++ host) rest).
    exact re_url_https.
Qed.

End Urls.

Section Tokens.

Lemma lowered_token_char (c : ascii) :
  Gensim.is_token_char (Text.lower_char c) = true ->
  is_lower_or_underscore (Text.lower_char c) = true.
Proof.
  destruct c as [[] [] [] [] [] [] [] []]; vm_compute; intros H;
    first [reflexivity | discriminate H].
Qed.

Lemma all_chars_snoc (p : ascii -> bool) (s : string) (c : ascii) :
  all_chars p (s ++ String c EmptyString) = (all_chars p s && p c)%bool.
Proof.
  induction s as [|a s IH]; cbn; [apply Bool.andb_true_r|].
  rewrite IH. apply Bool.andb_assoc.
Qed.

Lemma flush_word_like (cur : string) :
  all_chars is_lower_or_underscore cur = true ->
  Forall word_like (Gensim.flush cur).
Proof.
  intros H. destruct cur; [constructor|].
  constructor; [|constructor]. split; [discriminate|exact H].
Qed.

Lemma tokenize_from_word_like (text cur : string) :
  all_chars is_lower_or_underscore cur = true ->
  Forall word_like (Gensim.tokenize_from cur (Text.lower text)).
Proof.
  revert cur. induction text as [|c text IH]; intros cur Hcur.
  - apply flush_word_like, Hcur.
  - cbn [Text.lower Gensim.tokenize_from].
    destruct (Gensim.is_token_char (Text.lower_char c)) eqn:Hc.
    + apply IH. rewrite all_chars_snoc, Hcur, (lowered_token_char c Hc).
      reflexivity.
    + apply Forall_app. split; [apply flush_word_like, Hcur|].
      apply IH. reflexivity.
Qed.

(** Without length bounds only the tokens that begin with an underscore are
    left out. *)
Lemma simple_preprocess_unbounded (doc : string) :
  Gensim.simple_preprocess doc 0 None
  = filter (fun t => negb (prefix "_" t)) (Gensim.tokenize doc).
Proof. unfold Gensim.simple_preprocess. apply filter_ext. reflexivity. Qed.

Lemma tokens_of_word_like (doc : string) (t : token) :
  In t (tokens_of doc) ->
  word_like t /\ prefix "_" t = false.
Proof.
  unfold tokens_of. rewrite simple_preprocess_unbounded.
  intros H. apply filter_In in H. destruct H as [H Hp]. split.
  - pose proof (tokenize_from_word_like (clean doc) EmptyString eq_refl) as Hall.
    rewrite Forall_forall in Hall. apply Hall, H.
  - apply Bool.negb_true_iff, Hp.
Qed.

Lemma without_In (words : list string) (ts : list token) (t : token) :
  In t (without words ts) <-> In t ts /\ ~ In t words.
Proof.
  unfold without. rewrite filter_In. split; intros [Hin H]; split; try exact Hin.
  - intros Hw. apply Bool.negb_true_iff in H.
    apply Bool.not_true_iff_false in H. apply H.
    apply existsb_exists. exists t. split; [exact Hw|apply String.eqb_refl].
  - apply Bool.negb_true_iff, Bool.not_true_iff_false. intros Hc.
    apply existsb_exists in Hc. destruct Hc as (w & Hw & Heq).
    apply String.eqb_eq in Heq. subst w. exact (H Hw).
Qed.

End Tokens.

Section Blank.

Variable m : string -> option nat.
Hypothesis m_needs_start :
  forall c rest, is_space c = true -> m (String c rest) = None.

Lemma sub_blank (repl doc : string) :
  all_chars is_space doc = true -> Re.sub m repl doc = doc.
Proof.
  induction doc as [|c doc IH]; [reflexivity|].
  cbn [all_chars]. intros H. apply andb_prop in H. destruct H as [Hc Hdoc].
  rewrite sub_no_match by (apply m_needs_start, Hc).
  rewrite (IH Hdoc). reflexivity.
Qed.

End Blank.

Lemma patterns_need_start (c : ascii) (rest : string) :
  is_space c = true ->
  Re.re_img (String c rest) = None /\ Re.re_tag (String c rest) = None /\
  Re.re_img_assist (String c rest) = None /\ Re.re_url (String c rest) = None.
Proof.
  destruct c as [[] [] [] [] [] [] [] []]; intros H;
    first [discriminate H | repeat split].
Qed.

Lemma clean_blank (doc : string) :
  all_chars is_space doc = true -> clean doc = doc.
Proof.
  intros H. unfold clean.
  rewrite (sub_blank Re.re_img), (sub_blank Re.re_tag),
    (sub_blank Re.re_img_assist), (sub_blank Re.re_url);
    try exact H; try reflexivity;
    intros c rest Hc; apply (patterns_need_start c rest Hc).
Qed.

Lemma tokenize_blank (doc : string) :
  all_chars is_space doc = true ->
  Gensim.tokenize_from EmptyString (Text.lower doc) = [].
Proof.
  induction doc as [|c doc IH]; [reflexivity|].
  cbn [all_chars Text.lower Gensim.tokenize_from].
  intros H. apply andb_prop in H. destruct H as [Hc Hdoc].
  replace (Gensim.is_token_char (Text.lower_char c)) with false.
  - exact (IH Hdoc).
  - destruct c as [[] [] [] [] [] [] [] []];
      first [discriminate Hc | reflexivity].
Qed.

Lemma tokens_of_blank (doc : string) :
  all_chars is_space doc = true -> tokens_of doc = [].
Proof.
  intros H. unfold tokens_of, Gensim.simple_preprocess, Gensim.tokenize.
  rewrite (clean_blank doc H), (tokenize_blank doc H). reflexivity.
Qed.

Section Normalizer.
Context {B : Backend}.

Lemma preprocess_with_stopwords (self : DocSim) (words : list string)
      (doc : string) :
  stopwords self = Some words ->
  preprocess doc self = (Return (without words (tokens_of doc)), self).
Proof.
  intros H. rewrite preprocess_run, H. unfold normalize.
  destruct (tokens_of doc); reflexivity.
Qed.

End Normalizer.



(** * Further properties of the code *)

(** ** Loading the model and constructing instances *)

Section Construction.
Context {B : Backend}.

Lemma setup_model_loads (m : model_arg) (mdl : Model) (self : DocSim) :
  loaded_model m = Some mdl ->
  fst (setup_model m self) = Return tt
  /\ model (snd (setup_model m self)) = Some mdl
  /\ similarity_index (snd (setup_model m self))
     = Some (WordEmbeddingSimilarityIndex mdl)
  /\ model_ready (snd (setup_model m self)) = true.
Proof.
  destruct self as [v ? ? ? ? ? ? ? ? ?].
  destruct m, v; cbn; intros H; inversion H; subst; repeat split.
Qed.

Lemma setup_model_frame (m : model_arg) (self : DocSim) :
  let self' := snd (setup_model m self) in
  verbose self' = verbose self /\ stopwords self' = stopwords self
  /\ dictionary self' = dictionary self /\ tfidf self' = tfidf self
  /\ similarity_matrix self' = similarity_matrix self
  /\ thread self' = thread self.
Proof.
  destruct self as [v ? ? ? ? ? ? ? ? ?]. destruct m, v; cbn; repeat split.
Qed.

(** X1: [setup_model] accepts a keyed-vectors object, a model name or
    [None]: it returns, stores the given model (or the one [api.load] gives
    for the name, the default name for [None]), builds the similarity index
    from that model and sets [model_ready]; it leaves the stopwords, the
    dictionary, the TF-IDF model and the matrix alone. *)
Theorem X1_setup_model_loads_and_signals_readiness
        (m : model_arg) (mdl : Model) (self : DocSim) :
  loaded_model m = Some mdl ->
  let self' := snd (setup_model m self) in
  fst (setup_model m self) = Return tt
  /\ model self' = Some mdl
  /\ similarity_index self' = Some (WordEmbeddingSimilarityIndex mdl)
  /\ model_ready self' = true
  /\ stopwords self' = stopwords self
  /\ dictionary self' = dictionary self
  /\ tfidf self' = tfidf self
  /\ similarity_matrix self' = similarity_matrix self.
Proof.
  intros H. cbv zeta.
  destruct (setup_model_loads m mdl self H) as (H1 & H2 & H3 & H4).
  destruct (setup_model_frame m self) as (_ & F1 & F2 & F3 & F4 & _).
  repeat split; assumption.
Qed.

(** X2: a [model] argument that is neither keyed vectors, a string nor
    [None] makes [setup_model] raise the value error without touching the
    instance, and makes the constructor of [DocSim] raise it before the
    stopwords are assigned: the object is left without stopwords and not
    ready. *)
Theorem X2_unsupported_model_raises_ValueError
        (sw : option (list string)) (v : bool) (self : DocSim) :
  setup_model OtherObject self
  = (Raise (ValueError "Unable to load word vector model"), self)
  /\ fst (DocSim_init OtherObject sw v new_object)
     = Raise (ValueError "Unable to load word vector model")
  /\ stopwords (snd (DocSim_init OtherObject sw v new_object)) = None
  /\ model_ready (snd (DocSim_init OtherObject sw v new_object)) = false
  /\ printed (snd (DocSim_init OtherObject sw v new_object)) = [].
Proof. destruct self, sw, v; repeat split. Qed.

(** X3: the constructor of [DocSim] with a supported model returns an
    instance that is ready, whose similarity index is built from the loaded
    model and whose stopwords are the supplied list, or the hard-coded list
    when none is supplied; [preprocess] on it returns the tokens of the text
    that are not in that list. *)
Theorem X3_DocSim_constructor_uses_supplied_stopwords
        (m : model_arg) (mdl : Model) (sw : option (list string)) (v : bool) :
  loaded_model m = Some mdl ->
  let self := snd (DocSim_init m sw v new_object) in
  let words := match sw with Some ws => ws | None => nltk_stop_words end in
  fst (DocSim_init m sw v new_object) = Return tt
  /\ model_ready self = true
  /\ similarity_index self = Some (WordEmbeddingSimilarityIndex mdl)
  /\ stopwords self = Some words
  /\ forall doc,
       preprocess doc self = (Return (without words (tokens_of doc)), self).
Proof.
  intros H. cbv zeta.
  assert (Hsw : stopwords (snd (DocSim_init m sw v new_object))
                = Some (match sw with Some ws => ws | None => nltk_stop_words end)).
  { destruct m, sw, v; try discriminate H; reflexivity. }
  split; [destruct m, sw, v; try discriminate H; reflexivity|].
  split; [destruct m, sw, v; try discriminate H; reflexivity|].
  split; [destruct m, sw, v; inversion H; subst; reflexivity|].
  split; [exact Hsw|].
  intros doc. rewrite preprocess_run, Hsw. unfold normalize.
  destruct (tokens_of doc); reflexivity.
Qed.



End Construction.

(** ** What the methods keep *)

Section Invariant.
Context {B : Backend}.

Notation "x <- m ;; k" := (bind m (fun x => k))
  (at level 61, m at next level, right associativity).

Lemma reads_only_bind {A C : Type} (m : M A) (k : A -> M C) :
  reads_only m -> (forall a, reads_only (k a)) -> reads_only (bind m k).
Proof.
  intros Hm Hk self. rewrite bind_run. specialize (Hm self).
  destruct (m self) as [[a|e] self']; cbn [snd] in *; subst self'.
  - apply Hk.
  - reflexivity.
Qed.

Lemma reads_only_getattr {A : Type} (name : string)
      (field : DocSim -> option A) :
  reads_only (getattr name field).
Proof. intros self. unfold getattr. destruct (field self); reflexivity. Qed.

Lemma reads_only_ret {A : Type} (a : A) : reads_only (ret a).
Proof. intros self. reflexivity. Qed.

Lemma reads_only_raise {A : Type} (e : exn) : reads_only (raise (A := A) e).
Proof. intros self. reflexivity. Qed.

Lemma reads_only_for_each {A C : Type} (f : A -> M C) (xs : list A) :
  (forall x, reads_only (f x)) -> reads_only (for_each f xs).
Proof.
  intros Hf. induction xs as [|x xs IH]; [apply reads_only_ret|].
  cbn [for_each]. apply reads_only_bind; [apply Hf|]. intros y.
  apply reads_only_bind; [exact IH|]. intros ys. apply reads_only_ret.
Qed.

Lemma reads_only_lookup_id (t : token) : reads_only (lookup_id t).
Proof.
  unfold lookup_id. apply reads_only_bind; [apply reads_only_getattr|].
  intros d. destruct (token2id d t);
    [apply reads_only_ret|apply reads_only_raise].
Qed.

Lemma reads_only_scan_words (idx1 : nat) (words : list token)
      (acc : list (token * score)) :
  reads_only (scan_words idx1 words acc).
Proof.
  revert acc. induction words as [|w words IH]; intros acc;
    [apply reads_only_ret|].
  cbn [scan_words]. apply reads_only_bind; [apply reads_only_lookup_id|].
  intros idx2. apply reads_only_bind; [apply reads_only_getattr|].
  intros m. apply IH.
Qed.

Lemma reads_only_softcossim (query : list token)
      (corpus : list (list token)) :
  reads_only (_softcossim query corpus).
Proof.
  unfold _softcossim.
  apply reads_only_bind; [apply reads_only_getattr|]. intros tf.
  apply reads_only_bind; [apply reads_only_getattr|]. intros d.
  apply reads_only_bind; [apply reads_only_getattr|]. intros tf'.
  apply reads_only_bind.
  - apply reads_only_for_each. intros doc.
    apply reads_only_bind; [apply reads_only_getattr|]. intros d'.
    apply reads_only_ret.
  - intros bows. apply reads_only_bind; [apply reads_only_getattr|].
    intros m. apply reads_only_ret.
Qed.

Lemma reads_only_find_similar_terms (query : list token)
      (corpus : list (list token)) (k : nat) :
  reads_only (_find_similar_terms query corpus k).
Proof.
  unfold _find_similar_terms.
  induction query as [|term rest IH]; [apply reads_only_ret|].
  cbn [_find_similar_terms_loop].
  apply reads_only_bind; [apply reads_only_lookup_id|]. intros idx1.
  apply reads_only_bind.
  - apply reads_only_for_each. intros doc. unfold similar_terms_in.
    apply reads_only_bind; [apply reads_only_scan_words|]. intros res.
    apply reads_only_ret.
  - intros here. apply reads_only_bind; [exact IH|]. intros later.
    apply reads_only_ret.
Qed.

Lemma reads_only_preprocess (doc : string) : reads_only (preprocess doc).
Proof. intros self. rewrite preprocess_run. reflexivity. Qed.

Lemma announce_model (line : string) (self : DocSim) :
  model (announce line self) = model self
  /\ verbose (announce line self) = verbose self
  /\ thread (announce line self) = thread self.
Proof.
  unfold announce. destruct (verbose self) eqn:V; repeat split; exact V.
Qed.

Lemma coherent_setup_model (m : model_arg) (self : DocSim) :
  coherent self -> coherent (snd (setup_model m self)).
Proof.
  intros (H1 & H2 & H3 & H4).
  destruct (setup_model_frame m self) as (_ & _ & Fd & Ftf & Fm & _).
  cbv zeta in *. unfold coherent. rewrite Fd, Ftf, Fm.
  destruct (loaded_model m) as [mdl|] eqn:Hm.
  - destruct (setup_model_loads m mdl self Hm) as (_ & L1 & L2 & L3).
    rewrite L1, L2, L3. repeat split; auto.
    intros _. exists mdl. split; reflexivity.
  - destruct m; try discriminate Hm.
    replace (snd (setup_model OtherObject self)) with self
      by (destruct self; reflexivity).
    repeat split; auto.
Qed.

Lemma coherent_similarity_query (query_string : string)
      (documents : list string) (explain : bool) (self : DocSim) :
  coherent self ->
  coherent (snd (similarity_query query_string documents explain self)).
Proof.
  intros (H1 & H2 & H3 & H4).
  rewrite similarity_query_run. cbn [snd]. unfold after.
  destruct (model_ready self) eqn:Hready.
  - destruct (normalize_all (stopwords self) documents) as [corpus|e];
      [|repeat split; auto].
    destruct (normalize (stopwords self) query_string) as [query|e];
      [|repeat split; auto].
    destruct (H1 eq_refl) as (mdl & Hmodel & Hidx). rewrite Hidx.
    set (line := (_ ++ _)%string).
    destruct (announce_attributes line self) as (Ar & _ & Ai & _).
    destruct (announce_model line self) as (Am & _).
    unfold coherent.
    cbn [model_ready model similarity_index dictionary tfidf
         similarity_matrix set_similarity_matrix set_tfidf set_dictionary].
    rewrite Ar, Ai, Am, Hready. repeat split.
    + intros _. exists mdl. split; assumption.
    + intros tf Htf. injection Htf as <-. eexists. split; reflexivity.
    + intros mx Hmx. injection Hmx as <-. eexists _, _. repeat split.
  - destruct (announce_attributes
                "DocSim model not ready - cannot evaluate" self)
      as (Ar & _ & Ai & Ad & Atf & Amx).
    destruct (announce_model
                "DocSim model not ready - cannot evaluate" self) as (Am & _).
    unfold coherent. rewrite Ar, Ai, Ad, Atf, Amx, Am, Hready.
    repeat split; auto.
Qed.

Lemma reachable_coherent (self : DocSim) :
  reachable self -> coherent self.
Proof.
  induction 1 as [m sw v Hok| m sw v | self Hself IH | self m Hself IH
                  | self doc Hself IH | self q c Hself IH
                  | self q c k Hself IH | self q docs e Hself IH].
  - destruct m, sw, v; try discriminate Hok;
      (split; [intros _; eexists; split; reflexivity|]);
      (split; [intros tf Htf; discriminate Htf|]);
      (split; [intros mx Hmx; discriminate Hmx|]);
      intros Hd; contradiction Hd; reflexivity.
  - destruct sw;
      (split; [intros Hr; discriminate Hr|]);
      (split; [intros tf Htf; discriminate Htf|]);
      (split; [intros mx Hmx; discriminate Hmx|]);
      intros Hd; contradiction Hd; reflexivity.
  - unfold thread_run. destruct (thread self) as [m|] eqn:Hthread;
      [|exact IH].
    apply coherent_setup_model.
    destruct IH as (H1 & H2 & H3 & H4). repeat split; assumption.
  - apply coherent_setup_model, IH.
  - rewrite reads_only_preprocess. exact IH.
  - rewrite reads_only_softcossim. exact IH.
  - rewrite reads_only_find_similar_terms. exact IH.
  - apply coherent_similarity_query, IH.
Qed.

(** X6: on every instance a program can hold, the attributes belong
    together: when [model_ready] is set the model is stored and the
    similarity index is the one built from it, the TF-IDF model is the one of
    the stored dictionary, the term similarity matrix is the one built from
    that dictionary and that TF-IDF model with the limit 100, and a
    dictionary is only ever stored on a ready instance. *)
Theorem X6_reachable_instances_are_coherent (self : DocSim) :
  reachable self ->
  (model_ready self = true ->
   exists mdl,
     model self = Some mdl /\
     similarity_index self = Some (WordEmbeddingSimilarityIndex mdl))
  /\ (forall tf, tfidf self = Some tf ->
        exists d, dictionary self = Some d /\ tf = TfidfModel d)
  /\ (forall mx, similarity_matrix self = Some mx ->
        exists idx d,
          dictionary self = Some d /\
          tfidf self = Some (TfidfModel d) /\
          mx = SparseTermSimilarityMatrix idx d (TfidfModel d) 100)
  /\ (dictionary self <> None -> model_ready self = true).
Proof. exact (reachable_coherent self). Qed.

Section Exceptions.
Hypothesis Hset : set_ok B.
Hypothesis Hdictionary : dictionary_ok B.

(** X7: on an instance a program can hold, [similarity_query] returns
    ([None] or a ranking) unless the stopwords were never assigned and some
    text has a token: the only exception it raises is the attribute error for
    [stopwords], and then the instance is unchanged (nothing was built).  In
    particular no key error reaches the caller. *)
Theorem X7_similarity_query_raises_only_for_missing_stopwords
        (query_string : string) (documents : list string) (explain : bool)
        (self : DocSim) (e : exn) :
  reachable self ->
  fst (similarity_query query_string documents explain self) = Raise e ->
  e = AttributeError "stopwords"
  /\ stopwords self = None
  /\ snd (similarity_query query_string documents explain self) = self.
Proof.
  intros Hreach. destruct (reachable_coherent self Hreach) as (H1 & _).
  rewrite similarity_query_run. cbn [fst snd]. unfold answer, after.
  destruct (model_ready self); [|discriminate].
  destruct (H1 eq_refl) as (mdl & _ & Hidx). rewrite Hidx.
  destruct (stopwords self) as [words|] eqn:Hsw.
  - destruct (normalize_all_returns words documents) as [corpus ->].
    rewrite normalize_returns. cbv zeta.
    destruct explain; [|discriminate].
    destruct (find_terms_of_call_returns
                Hset Hdictionary (WordEmbeddingSimilarityIndex mdl)
                (without words (tokens_of query_string)) corpus 5)
      as [found ->].
    discriminate.
  - pose proof (normalize_all_without_stopwords documents) as Hall.
    destruct (normalize_all None documents) as [corpus|e'].
    + rewrite normalize_without_stopwords.
      destruct (tokens_of query_string).
      * cbv zeta. destruct explain; [|discriminate].
        destruct (find_terms_of_call_returns
                    Hset Hdictionary (WordEmbeddingSimilarityIndex mdl)
                    [] corpus 5) as [found ->].
        discriminate.
      * intros H. injection H as <-. repeat split.
    + intros H. injection H as <-. subst e'. repeat split.
Qed.

End Exceptions.

End Invariant.

(** ** Determinism *)

Section Determinism.
Context {B : Backend}.

(** On the instances a program can hold, the model and the readiness flag
    fix the similarity index wherever it is read. *)
Lemma reachable_same_model (self other : DocSim) :
  reachable self -> reachable other ->
  model_ready other = model_ready self ->
  model other = model self ->
  model_ready self = true ->
  similarity_index other = similarity_index self.
Proof.
  intros Hself Hother Hready Hmodel Htrue.
  destruct (reachable_coherent self Hself) as (Hs & _).
  destruct (reachable_coherent other Hother) as (Ho & _).
  destruct (Hs Htrue) as (mdl & Hm & Hi).
  rewrite <- Hready in Htrue.
  destruct (Ho Htrue) as (mdl' & Hm' & Hi').
  rewrite Hi, Hi'. rewrite Hmodel, Hm in Hm'. injection Hm' as <-.
  reflexivity.
Qed.

(** C7, as amended: the result of [similarity_query] (a ranking with its
    order and its explanations, [None], or an exception) is the same for two
    calls with the same query string, documents and [explain] flag whenever
    the two instances agree on the [model_ready] flag, on the stopwords and
    on the similarity index, or, for instances a program can hold, on the
    [model_ready] flag, the stopwords and the model.  The two instances may
    be one instance at two moments: calls of [similarity_query] made in
    between, with any arguments, change nothing.  The backend, and with it
    the order in which a set is visited, is the same for both calls. *)
Theorem C7_same_inputs_and_readiness_same_result
        (query_string : string) (documents : list string) (explain : bool)
        (self other : DocSim)
        (calls : list (string * list string * bool)) :
  model_ready other = model_ready self ->
  stopwords other = stopwords self ->
  similarity_index other = similarity_index self
  \/ (reachable self /\ reachable other /\ model other = model self) ->
  fst (similarity_query query_string documents explain
         (after_calls calls other))
  = fst (similarity_query query_string documents explain self).
Proof.
  intros Hready Hwords Hmodel.
  destruct (after_calls_configuration calls other) as (Hr & Hs & Hi).
  destruct Hmodel as [Hindex|(Hself & Hother & Hmodel)].
  - apply same_configuration_same_result; congruence.
  - destruct (Bool.bool_dec (model_ready self) true) as [Htrue|Hfalse].
    + apply same_configuration_same_result; try congruence.
      rewrite Hi.
      apply reachable_same_model; assumption.
    + apply Bool.not_true_is_false in Hfalse.
      rewrite !similarity_query_run. cbn [fst]. unfold answer.
      rewrite Hr, Hready, Hfalse. reflexivity.
Qed.

End Determinism.

(** The claim does not hold without the condition on [model_ready]: the same
    call on the same threaded instance returns [None] while the model is
    being loaded and a ranking once the thread has ended; the stopwords are
    the same at both moments. *)
Lemma C7_same_call_before_and_after_loading :
  let self := Demo.loading None in
  let first := similarity_query "car" ["bicycle"; "car"] false self in
  let later := thread_run (snd first) in
  let second := similarity_query "car" ["bicycle"; "car"] false later in
  stopwords later = stopwords self
  /\ fst first = Return None
  /\ fst second = Return (Some (Ranked [(1, 1%Q); (0, 0%Q)]))
  /\ fst second <> fst first.
Proof.
  cbv zeta. split; [reflexivity|]. split; [reflexivity|].
  split; [vm_compute; reflexivity|].
  vm_compute. discriminate.
Qed.

Lemma C7_repeated_call_witness :
  let self := Demo.ready [("car", "bicycle", 0.4%Q)] nltk_stop_words in
  fst (similarity_query "car" ["bicycle"; "car"] true
         (after_calls [("boat", ["ship"], false);
                       ("car", ["bicycle"; "car"], true)] self))
  = fst (similarity_query "car" ["bicycle"; "car"] true self).
Proof.
  cbv zeta.
  apply (C7_same_inputs_and_readiness_same_result
           "car" ["bicycle"; "car"] true
           (Demo.ready [("car", "bicycle", 0.4%Q)] nltk_stop_words)
           (Demo.ready [("car", "bicycle", 0.4%Q)] nltk_stop_words)
           [("boat", ["ship"], false); ("car", ["bicycle"; "car"], true)]
           eq_refl eq_refl (or_introl eq_refl)).
Defined.

(** ** The rows of a ranking *)

Section Rows.
Context {B : Backend}.
Hypothesis Hargsort : argsort_ok B.

(** The call, taken apart: the corpus, the query and the scores from which
    the rows are built. *)
Lemma ranking_parts (query_string : string) (documents : list string)
      (explain : bool) (self : DocSim) (r : ranking) :
  fst (similarity_query query_string documents explain self)
  = Return (Some r) ->
  exists corpus query scores,
    fst (for_each preprocess documents self) = Return corpus
    /\ fst (preprocess query_string self) = Return query
    /\ fst (_softcossim query corpus
              (snd (similarity_query query_string documents explain self)))
       = Return scores
    /\ List.length corpus = List.length documents
    /\ List.length scores = List.length documents
    /\ ranking_rows r
       = (if explain
          then firstn (List.length query * List.length corpus) (rank scores)
          else rank scores).
Proof.
  rewrite similarity_query_run. cbn [fst snd]. unfold answer, after.
  rewrite preprocess_all_run, preprocess_run. cbn [fst].
  destruct (model_ready self); [|discriminate].
  destruct (normalize_all (stopwords self) documents) as [corpus|e] eqn:Hc;
    [|discriminate].
  destruct (normalize (stopwords self) query_string) as [query|e];
    [|discriminate].
  destruct (similarity_index self) as [idx|]; [|discriminate].
  cbv zeta.
  set (d := Dictionary (corpus ++ [query])).
  set (tf := TfidfModel d).
  set (m := SparseTermSimilarityMatrix idx d tf 100).
  intros Hr. exists corpus, query, (scores_for d tf m query corpus).
  rewrite (softcossim_run d tf m) by reflexivity. cbn [fst].
  pose proof (normalize_all_length _ _ _ Hc) as Hlen.
  repeat split; try assumption.
  - rewrite scores_for_length. exact Hlen.
  - destruct explain.
    + destruct (find_terms d m query corpus 5) as [found|e] eqn:Hfound;
        [|discriminate].
      injection Hr as <-. cbn [ranking_rows].
      rewrite map_fst_combine, (find_terms_length _ _ _ _ _ _ Hfound).
      reflexivity.
    + injection Hr as <-. reflexivity.
Qed.

(** X8: in a returned ranking every row pairs a document index with the
    score [_softcossim] computes for that very document, with or without
    explanations. *)
Theorem X8_row_score_belongs_to_row_index
        (query_string : string) (documents : list string) (explain : bool)
        (self : DocSim) (r : ranking) :
  fst (similarity_query query_string documents explain self)
  = Return (Some r) ->
  exists corpus query scores,
    fst (for_each preprocess documents self) = Return corpus
    /\ fst (preprocess query_string self) = Return query
    /\ fst (_softcossim query corpus
              (snd (similarity_query query_string documents explain self)))
       = Return scores
    /\ forall i s, In (i, s) (ranking_rows r) -> nth_error scores i = Some s.
Proof.
  intros Hr.
  destruct (ranking_parts _ _ _ _ _ Hr)
    as (corpus & query & scores & Hc & Hq & Hs & _ & Hlen & Hrows).
  exists corpus, query, scores. repeat split; try assumption.
  intros i s Hin. rewrite Hrows in Hin.
  assert (Hrank : In (i, s) (rank scores))
    by (destruct explain; [exact (In_firstn _ _ _ Hin)|exact Hin]).
  rewrite (rank_row_score _ _ _ Hrank).
  apply nth_error_nth'.
  apply (in_map fst) in Hrank. cbn [fst] in Hrank.
  apply (Permutation_in _ (rank_permutation Hargsort scores)) in Hrank.
  apply in_seq in Hrank. lia.
Qed.

(** X9: without explanations a returned ranking has one row per document;
    with explanations it has one row per document when the query has a
    token and no row at all when it has none (so for an empty list of
    documents the ranking is empty in both cases). *)
Theorem X9_number_of_rows
        (query_string : string) (documents : list string) (explain : bool)
        (self : DocSim) (r : ranking) (query : list token) :
  fst (similarity_query query_string documents explain self)
  = Return (Some r) ->
  fst (preprocess query_string self) = Return query ->
  List.length (ranking_rows r)
  = (if explain
     then match query with
          | [] => 0
          | _ :: _ => List.length documents
          end
     else List.length documents).
Proof.
  intros Hr Hquery.
  destruct (ranking_parts _ _ _ _ _ Hr)
    as (corpus & query' & scores & _ & Hq & _ & Hc & Hlen & Hrows).
  rewrite Hquery in Hq. injection Hq as <-.
  rewrite Hrows. destruct explain.
  - rewrite length_firstn, (rank_length Hargsort), Hlen, Hc.
    destruct query as [|t query]; [reflexivity|].
    cbn [List.length]. apply Nat.min_r. cbn. lia.
  - rewrite (rank_length Hargsort). exact Hlen.
Qed.

(** X10: asking for explanations does not change the indexes and scores:
    from the same instance, the rows of the explained ranking are a prefix of
    the rows of the plain ranking, and all of them when the query has a
    token. *)
Theorem X10_explanations_do_not_change_scores
        (query_string : string) (documents : list string) (self : DocSim)
        (plain explained : ranking) (query : list token) :
  fst (similarity_query query_string documents false self)
  = Return (Some plain) ->
  fst (similarity_query query_string documents true self)
  = Return (Some explained) ->
  fst (preprocess query_string self) = Return query ->
  ranking_rows explained
  = firstn (List.length (ranking_rows explained)) (ranking_rows plain)
  /\ (query <> [] -> ranking_rows explained = ranking_rows plain).
Proof.
  intros Hplain Hexplained Hquery.
  destruct (ranking_parts _ _ _ _ _ Hplain)
    as (corpus & query' & scores & Hc & Hq & Hs & Hlc & Hlen & Hrows).
  destruct (ranking_parts _ _ _ _ _ Hexplained)
    as (corpus' & query'' & scores' & Hc' & Hq' & Hs' & _ & _ & Hrows').
  rewrite Hc in Hc'. injection Hc' as <-.
  rewrite Hquery in Hq, Hq'. injection Hq as <-. injection Hq' as <-.
  assert (Hsame : scores' = scores).
  { revert Hs Hs'. rewrite !similarity_query_run. cbn [snd]. unfold after.
    rewrite similarity_query_run in Hplain. cbn [fst] in Hplain.
    unfold answer in Hplain.
    rewrite preprocess_all_run in Hc. rewrite preprocess_run in Hquery.
    cbn [fst] in Hc, Hquery.
    destruct (model_ready self); [|discriminate].
    rewrite Hc, Hquery in *.
    destruct (similarity_index self); [|discriminate].
    intros Hs Hs'. rewrite Hs in Hs'. injection Hs' as <-. reflexivity. }
  subst scores'. rewrite Hrows, Hrows'. split.
  - rewrite length_firstn.
    destruct (Nat.le_ge_cases (List.length query * List.length corpus)
                              (List.length (rank scores))) as [Hle|Hge].
    + rewrite Nat.min_l by exact Hle. reflexivity.
    + rewrite Nat.min_r by exact Hge.
      rewrite firstn_all, firstn_all2 by exact Hge. reflexivity.
  - intros Hne. apply firstn_all2.
    rewrite (rank_length Hargsort), Hlen, <- Hlc.
    destruct query as [|t query]; [contradiction Hne; reflexivity|].
    cbn. lia.
Qed.

End Rows.

(** ** The private helpers *)

Section Helpers.
Context {B : Backend}.

Lemma softcossim_cases (query : list token) (corpus : list (list token))
      (self : DocSim) :
  _softcossim query corpus self
  = (match tfidf self, dictionary self, similarity_matrix self with
     | None, _, _ => Raise (AttributeError "tfidf")
     | Some _, None, _ => Raise (AttributeError "dictionary")
     | Some _, Some _, None => Raise (AttributeError "similarity_matrix")
     | Some tf, Some d, Some m => Return (scores_for d tf m query corpus)
     end, self).
Proof.
  destruct (tfidf self) as [tf|] eqn:Htf,
           (dictionary self) as [d|] eqn:Hd,
           (similarity_matrix self) as [m|] eqn:Hm;
    try (apply (softcossim_run d tf m); assumption);
    unfold _softcossim; rewrite bind_run; unfold getattr at 1; rewrite Htf;
    try reflexivity;
    rewrite bind_run; unfold getattr at 1; rewrite Hd; try reflexivity;
    rewrite bind_run; unfold getattr at 1; rewrite Htf;
    rewrite bind_run, (bows_run d) by exact Hd;
    rewrite bind_run; unfold getattr at 1; rewrite Hm; reflexivity.
Qed.

(** X11: [_softcossim] only reads the instance; with the dictionary, the
    TF-IDF model and the matrix assigned it returns one score per document,
    and on an instance that has not answered a query yet it raises the
    attribute error of the first attribute it misses: [tfidf], then
    [dictionary], then [similarity_matrix]. *)
Theorem X11_softcossim_scores_or_attribute_error
        (query : list token) (corpus : list (list token)) (self : DocSim) :
  snd (_softcossim query corpus self) = self
  /\ (tfidf self = None ->
      fst (_softcossim query corpus self) = Raise (AttributeError "tfidf"))
  /\ (tfidf self <> None -> dictionary self = None ->
      fst (_softcossim query corpus self)
      = Raise (AttributeError "dictionary"))
  /\ (tfidf self <> None -> dictionary self <> None ->
      similarity_matrix self = None ->
      fst (_softcossim query corpus self)
      = Raise (AttributeError "similarity_matrix"))
  /\ (tfidf self <> None -> dictionary self <> None ->
      similarity_matrix self <> None ->
      exists scores,
        fst (_softcossim query corpus self) = Return scores
        /\ List.length scores = List.length corpus).
Proof.
  rewrite softcossim_cases. cbn [fst snd].
  split; [reflexivity|].
  destruct (tfidf self) as [tf|], (dictionary self) as [d|],
           (similarity_matrix self) as [m|];
    repeat split;
    try discriminate;
    try (intros; exfalso; auto; fail);
    try (intros H; contradiction H; reflexivity);
    try (intros H1 H2; first [contradiction H1; reflexivity
                             |contradiction H2; reflexivity]);
    try (intros H1 H2 H3; first [contradiction H1; reflexivity
                                |contradiction H2; reflexivity
                                |contradiction H3; reflexivity]).
  intros _ _ _. eexists. split; [reflexivity|]. apply scores_for_length.
Qed.

(** X12: on an instance without a dictionary (no query answered yet)
    [_find_similar_terms] raises the attribute error for [dictionary] as soon
    as the query has a term, and returns the empty list for an empty query;
    it never changes the instance. *)
Theorem X12_find_similar_terms_before_first_query
        (query : list token) (corpus : list (list token)) (k : nat)
        (self : DocSim) :
  snd (_find_similar_terms query corpus k self) = self
  /\ (dictionary self = None ->
      fst (_find_similar_terms query corpus k self)
      = match query with
        | [] => Return []
        | _ :: _ => Raise (AttributeError "dictionary")
        end).
Proof.
  split; [apply reads_only_find_similar_terms|].
  intros Hd. unfold _find_similar_terms.
  destruct query as [|term rest]; [reflexivity|].
  cbn [_find_similar_terms_loop]. rewrite bind_run.
  unfold lookup_id. rewrite bind_run. unfold getattr at 1. rewrite Hd.
  reflexivity.
Qed.

Lemma StronglySorted_app_inv {A : Type} (R : A -> A -> Prop)
      (l1 l2 : list A) :
  StronglySorted R (l1 ++ l2) ->
  forall x y, In x l1 -> In y l2 -> R x y.
Proof.
  induction l1 as [|a l1 IH]; intros H x y Hx Hy; [contradiction Hx|].
  cbn in H. apply StronglySorted_inv in H. destruct H as [Hs Ha].
  destruct Hx as [<-|Hx].
  - rewrite Forall_forall in Ha. apply Ha, in_or_app. right. exact Hy.
  - exact (IH Hs x y Hx Hy).
Qed.

(** What the truncation leaves out is no better than what it keeps. *)
Lemma firstn_sorted_keeps_best {A : Type} (R : A -> A -> Prop)
      (l : list A) (k : nat) (y : A) :
  StronglySorted R l -> In y l -> ~ In y (firstn k l) ->
  List.length (firstn k l) = k
  /\ forall x, In x (firstn k l) -> R x y.
Proof.
  intros Hsorted Hy Hout.
  rewrite <- (firstn_skipn k l) in Hy, Hsorted.
  apply in_app_or in Hy. destruct Hy as [Hy|Hy]; [contradiction|].
  split.
  - apply firstn_length_le.
    destruct (Nat.le_gt_cases k (List.length l)) as [Hle|Hgt];
      [exact Hle|].
    rewrite skipn_all2 in Hy by lia. contradiction Hy.
  - intros x Hx. exact (StronglySorted_app_inv R _ _ Hsorted x y Hx Hy).
Qed.

(** X13: for one query term and one document whose terms are all
    registered, [_find_similar_terms] returns one list; every entry of the
    list is a term of the document with its strictly positive matrix entry
    for the query term, and a term of the document with a positive entry is
    left out only when the list is full ([term_limit] entries) and every
    listed score is at least as large. *)
Theorem X13_explanation_keeps_the_best_terms
        (term : token) (document : list token) (term_limit : nat)
        (self : DocSim) (d : DictionaryT) (m : MatrixT) (idx1 : nat) :
  set_ok B ->
  dictionary self = Some d ->
  similarity_matrix self = Some m ->
  token2id d term = Some idx1 ->
  (forall w, In w document -> token2id d w <> None) ->
  exists terms,
    fst (_find_similar_terms [term] [document] term_limit self)
    = Return [terms]
    /\ (forall w s,
           In (w, s) terms ->
           In w document
           /\ s = matrix_getitem m idx1 (id_in d w) /\ (0 < s)%Q)
    /\ (forall w,
           In w document ->
           (0 < matrix_getitem m idx1 (id_in d w))%Q ->
           ~ In w (map fst terms) ->
           List.length terms = term_limit
           /\ forall w' s',
               In (w', s') terms ->
               (matrix_getitem m idx1 (id_in d w) <= s')%Q).
Proof.
  intros Hset Hd Hm Hterm Hknown.
  rewrite (find_similar_terms_run d m) by assumption. cbn [fst find_terms].
  rewrite Hterm. unfold words_scanned. cbn [flat_map]. rewrite app_nil_r.
  destruct (find (unregistered d) (set_iter document)) as [w|] eqn:Hfind.
  { exfalso. apply find_some in Hfind. destruct Hfind as [Hin Hw].
    apply (Hknown w); [apply (proj2 (Hset document)), Hin|].
    unfold unregistered in Hw. destruct (token2id d w);
      [discriminate Hw|reflexivity]. }
  cbn [map app].
  set (sim := fun w => matrix_getitem m idx1 (id_in d w)).
  exists (explanation sim (set_iter document) term_limit).
  split; [reflexivity|]. split.
  - intros w s Hin. apply explanation_in in Hin.
    destruct Hin as (Hw & Hs & Hpos). repeat split; try assumption.
    apply (proj2 (Hset document)), Hw.
  - intros w Hw Hpos Hout. unfold explanation in *.
    set (scored := filter (fun ws => negb (Qle_bool (snd ws) 0))
                          (map (fun w => (w, sim w)) (set_iter document)))
      in *.
    assert (Hscored : In (w, sim w) (sorted_desc scored)).
    { apply (Permutation_in _ (Permutation_sym
                                 (sorted_desc_permutation scored))).
      apply filter_In. split.
      - apply in_map_iff. exists w. split; [reflexivity|].
        apply (proj2 (Hset document)), Hw.
      - cbn [snd]. apply Bool.negb_true_iff, Bool.not_true_iff_false.
        intros Hle. apply Qle_bool_iff in Hle.
        exact (Qlt_not_le _ _ Hpos Hle). }
    assert (Hcut : ~ In (w, sim w) (firstn term_limit (sorted_desc scored))).
    { intros Hin. apply Hout. apply in_map_iff.
      exists (w, sim w). split; [reflexivity|exact Hin]. }
    destruct (firstn_sorted_keeps_best
                _ _ term_limit _ (sorted_desc_sorted scored) Hscored Hcut)
      as [Hlen Hbest].
    split; [exact Hlen|].
    intros w' s' Hin. exact (Hbest (w', s') Hin).
Qed.

End Helpers.

(** ** More on the substitutions *)

Section Unmatched.

Variable m : string -> option nat.
Variable p : ascii -> bool.

(** Where the pattern can only start at a character outside [p], a text
    of characters of [p] is copied. *)
Lemma sub_copies_prefix (repl pre rest : string) :
  (forall c s, p c = true -> m (String c s) = None) ->
  all_chars p pre = true ->
  Re.sub m repl (pre ++ rest) = (pre ++ Re.sub m repl rest)%string.
Proof.
  intros Hm. induction pre as [|c pre IH]; [reflexivity|].
  cbn [all_chars append]. intros H. apply andb_prop in H.
  destruct H as [Hc Hpre].
  rewrite sub_no_match by (apply Hm, Hc). rewrite (IH Hpre). reflexivity.
Qed.

(** Where the pattern matches no text made of characters of [p], such a
    text is left as it is. *)
Lemma sub_unmatched (repl doc : string) :
  (forall s, all_chars p s = true -> m s = None) ->
  all_chars p doc = true ->
  Re.sub m repl doc = doc.
Proof.
  intros Hm. induction doc as [|c doc IH]; [reflexivity|].
  intros H. rewrite sub_no_match by (apply Hm, H).
  cbn [all_chars] in H. apply andb_prop in H. destruct H as [_ Hdoc].
  rewrite (IH Hdoc). reflexivity.
Qed.

End Unmatched.

Lemma append_nil_r (s : string) : (s ++ EmptyString)%string = s.
Proof. induction s as [|c s IH]; [reflexivity|]. cbn. rewrite IH. reflexivity. Qed.

Lemma all_chars_drop (p : ascii -> bool) (n : nat) (s : string) :
  all_chars p s = true -> all_chars p (Text.drop n s) = true.
Proof.
  revert s. induction n as [|n IH]; intros s H; [exact H|].
  destruct s as [|c s]; [reflexivity|].
  cbn [all_chars] in H. apply andb_prop in H. exact (IH s (proj2 H)).
Qed.

Lemma all_chars_weaken (p q : ascii -> bool) (s : string) :
  (forall c, p c = true -> q c = true) ->
  all_chars p s = true -> all_chars q s = true.
Proof.
  intros Hpq. induction s as [|c s IH]; [reflexivity|].
  cbn. intros H. apply andb_prop in H. destruct H as [Hc Hs].
  rewrite (Hpq c Hc), (IH Hs). reflexivity.
Qed.

(** An opening bracket is needed for a tag to start. *)
Lemma match_angle_needs_bracket (opening : string) (c : ascii) (s : string) :
  Ascii.eqb c "<" = false ->
  Re.match_angle (String "<" opening) (String c s) = None.
Proof.
  intros Hc. unfold Re.match_angle. cbn [prefix].
  destruct (ascii_dec "<" c) as [<-|_]; [discriminate Hc|reflexivity].
Qed.

Section UnterminatedMarkup.

Variable pre body : string.
Hypothesis pre_without_bracket :
  all_chars (fun c => negb (Ascii.eqb c "<")) pre = true.
Hypothesis body_without_brackets : all_chars Re.not_angle body = true.

Lemma match_angle_at_end (opening : string) :
  body <> EmptyString ->
  Re.match_angle opening (opening ++ body)
  = Some (String.length opening + String.length body).
Proof.
  intros Hne.
  assert (H : Re.match_angle opening (opening ++ body ++ EmptyString)
              = Some (String.length opening + String.length body)).
  { unfold Re.match_angle.
    rewrite prefix_append, drop_append.
    rewrite (span_append _ _ _ body_without_brackets).
    cbn [Text.span]. rewrite Nat.add_0_r, drop_append.
    destruct body as [|c b]; [contradiction Hne; reflexivity|].
    reflexivity. }
  rewrite append_nil_r in H. exact H.
Qed.

Lemma sub_angle_at_end (opening repl : string) :
  body <> EmptyString ->
  Re.sub (Re.match_angle (String "<" opening)) repl
         (pre ++ String "<" opening ++ body)
  = (pre ++ repl)%string.
Proof.
  intros Hne.
  rewrite (sub_copies_prefix _ (fun c => negb (Ascii.eqb c "<")));
    [|intros c s Hc; apply match_angle_needs_bracket;
      apply Bool.negb_true_iff, Hc
     |exact pre_without_bracket].
  f_equal.
  pose proof (match_angle_at_end (String "<" opening) Hne) as H.
  cbn [append] in *.
  rewrite <- (append_nil_r (opening ++ body)) in *.
  rewrite (sub_match _ repl "<" (opening ++ body) EmptyString).
  - apply append_nil_r.
  - rewrite H. f_equal. cbn [String.length]. rewrite length_append.
    reflexivity.
Qed.

Lemma match_angle_interrupted (rest : string) :
  Re.match_angle "<" (String "<" (body ++ String "<" rest)) = None.
Proof.
  change (String "<" (body ++ String "<" rest))
    with ("<" ++ (body ++ String "<" rest))%string.
  unfold Re.match_angle. rewrite prefix_append, drop_append.
  rewrite (span_append _ _ _ body_without_brackets).
  cbn [Text.span]. replace (Re.not_angle "<") with false by reflexivity.
  rewrite Nat.add_0_r.
  destruct (String.length body) as [|k] eqn:Hlen; [reflexivity|].
  rewrite <- Hlen, drop_append. reflexivity.
Qed.

(** X14: a tag that is not closed before the end of the text is replaced
    with everything that follows it: from an opening bracket followed by
    text without brackets up to the end, the tag substitution leaves a space
    and the image substitution (after [<img]) leaves [image_token]; but an
    opening bracket whose text runs into another opening bracket is kept,
    with the text behind it. *)
Theorem X14_unclosed_tag_swallows_the_rest_of_the_text (rest : string) :
  (body <> EmptyString ->
   Re.sub Re.re_tag " " (pre ++ "<" ++ body) = (pre ++ " ")%string
   /\ Re.sub Re.re_img " image_token " (pre ++ "<img" ++ body)
      = (pre ++ " image_token ")%string)
  /\ Re.sub Re.re_tag " " (pre ++ "<" ++ body ++ String "<" rest)
     = (pre ++ "<" ++ body ++ Re.sub Re.re_tag " " (String "<" rest))%string.
Proof.
  split.
  - intros Hne. split.
    + exact (sub_angle_at_end "" " " Hne).
    + exact (sub_angle_at_end "img" " image_token " Hne).
  - unfold Re.re_tag.
    rewrite (sub_copies_prefix _ (fun c => negb (Ascii.eqb c "<")));
      [|intros c s Hc; apply match_angle_needs_bracket;
        apply Bool.negb_true_iff, Hc
       |exact pre_without_bracket].
    f_equal. cbn [append].
    rewrite sub_no_match by apply match_angle_interrupted.
    f_equal.
    apply (sub_copies_prefix _ (fun c => negb (Ascii.eqb c "<"))).
    + intros c s Hc. apply match_angle_needs_bracket.
      apply Bool.negb_true_iff, Hc.
    + revert body_without_brackets. apply all_chars_weaken.
      intros c. unfold Re.not_angle. cbn [Text.one_of].
      destruct (Ascii.eqb c "<"); [discriminate|reflexivity].
Qed.

End UnterminatedMarkup.

Section ImageAssist.

Lemma find_first_closing (body rest : string) :
  all_chars not_closing body = true ->
  Text.find_first (Ascii.eqb "]") (body ++ String "]" rest)
  = Some (String.length body).
Proof.
  induction body as [|c body IH]; [reflexivity|].
  cbn [all_chars append Text.find_first String.length]. intros H.
  apply andb_prop in H. destruct H as [Hc Hbody].
  unfold not_closing in Hc. apply Bool.negb_true_iff in Hc.
  rewrite Hc, (IH Hbody). reflexivity.
Qed.

Lemma find_first_no_closing (s : string) :
  all_chars not_closing s = true ->
  Text.find_first (Ascii.eqb "]") s = None.
Proof.
  induction s as [|c s IH]; [reflexivity|].
  cbn [all_chars Text.find_first]. intros H.
  apply andb_prop in H. destruct H as [Hc Hs].
  unfold not_closing in Hc. apply Bool.negb_true_iff in Hc.
  rewrite Hc, (IH Hs). reflexivity.
Qed.

Lemma re_img_assist_unclosed (s : string) :
  all_chars not_closing s = true -> Re.re_img_assist s = None.
Proof.
  intros H. unfold Re.re_img_assist.
  destruct (prefix "[img_assist" s); [|reflexivity].
  rewrite (find_first_no_closing _ (all_chars_drop _ 11 s H)). reflexivity.
Qed.

(** X15: the directive [[img_assist ...]] is replaced by a space up to its
    first closing bracket, and the substitution goes on behind it; in a text
    without any closing bracket nothing is replaced, so a directive that is
    not closed stays in the text. *)
Theorem X15_img_assist_directive_removed_up_to_first_bracket
        (body rest doc : string) :
  (all_chars not_closing body = true ->
   Re.sub Re.re_img_assist " " ("[img_assist" ++ body ++ String "]" rest)
   = (" " ++ Re.sub Re.re_img_assist " " rest)%string)
  /\ (all_chars not_closing doc = true ->
      Re.sub Re.re_img_assist " " doc = doc).
Proof.
  split.
  - intros Hbody.
    assert (Hassoc : ("[img_assist" ++ body ++ String "]" rest)%string
                     = String "[" (("img_assist" ++ body ++ "]") ++ rest)).
    { cbn [append]. do 11 f_equal. rewrite append_assoc. reflexivity. }
    rewrite Hassoc. apply sub_match. rewrite <- Hassoc.
    unfold Re.re_img_assist. rewrite prefix_append.
    change 11 with (String.length "[img_assist") at 1.
    rewrite drop_append, (find_first_closing _ _ Hbody).
    f_equal. cbn [append String.length]. rewrite length_append.
    cbn [String.length]. lia.
  - intros Hdoc.
    exact (sub_unmatched _ _ " " doc re_img_assist_unclosed Hdoc).
Qed.

End ImageAssist.

Section PlainText.

Lemma plain_not_bracket (c : ascii) :
  plain_char c = true -> Ascii.eqb c "<" = false.
Proof.
  unfold plain_char. cbn [Text.one_of].
  destruct (Ascii.eqb c "<"); [discriminate|reflexivity].
Qed.

Lemma match_angle_plain (opening s : string) :
  all_chars plain_char s = true ->
  Re.match_angle (String "<" opening) s = None.
Proof.
  destruct s as [|c s]; [reflexivity|].
  cbn [all_chars]. intros H. apply andb_prop in H.
  apply match_angle_needs_bracket, plain_not_bracket, H.
Qed.

Lemma re_img_assist_plain (s : string) :
  all_chars plain_char s = true -> Re.re_img_assist s = None.
Proof.
  destruct s as [|c s]; [reflexivity|].
  cbn [all_chars]. intros H. apply andb_prop in H. destruct H as [Hc _].
  unfold Re.re_img_assist. cbn [prefix].
  destruct (ascii_dec "[" c) as [<-|_]; [discriminate Hc|reflexivity].
Qed.

Lemma scheme_separator_plain (s : string) :
  all_chars plain_char s = true -> prefix "://" s = false.
Proof.
  destruct s as [|c s]; [reflexivity|].
  cbn [all_chars]. intros H. apply andb_prop in H. destruct H as [Hc _].
  cbn [prefix]. destruct (ascii_dec ":" c) as [<-|_];
    [discriminate Hc|reflexivity].
Qed.

Lemma re_url_plain (s : string) :
  all_chars plain_char s = true -> Re.re_url s = None.
Proof.
  intros H. unfold Re.re_url.
  destruct (prefix "http" s); [|reflexivity].
  rewrite !(scheme_separator_plain _ (all_chars_drop _ _ s H)).
  destruct (prefix "s" (Text.drop 4 s)); reflexivity.
Qed.

Lemma clean_plain (doc : string) :
  all_chars plain_char doc = true -> clean doc = doc.
Proof.
  intros H. unfold clean.
  rewrite (sub_unmatched Re.re_img plain_char _ doc
                         (match_angle_plain "img") H).
  rewrite (sub_unmatched Re.re_tag plain_char _ doc
                         (match_angle_plain "") H).
  rewrite (sub_unmatched Re.re_img_assist plain_char _ doc
                         re_img_assist_plain H).
  exact (sub_unmatched Re.re_url plain_char _ doc re_url_plain H).
Qed.

End PlainText.

Section OnInstances.
Context {B : Backend}.

(** X16: a text without an opening angle bracket, an opening square
    bracket or a colon passes through the four substitutions unchanged, so
    [preprocess] returns gensim's tokens of the text itself, less the
    stopwords. *)
Theorem X16_plain_text_is_only_tokenized
        (doc : string) (words : list string) (self : DocSim) :
  all_chars plain_char doc = true ->
  stopwords self = Some words ->
  Re.sub Re.re_url " url_token "
    (Re.sub Re.re_img_assist " "
       (Re.sub Re.re_tag " " (Re.sub Re.re_img " image_token " doc))) = doc
  /\ fst (preprocess doc self)
     = Return (without words (Gensim.simple_preprocess doc 0 None)).
Proof.
  intros Hplain Hsw. split; [exact (clean_plain doc Hplain)|].
  rewrite (preprocess_with_stopwords self words doc Hsw). cbn [fst].
  unfold tokens_of. rewrite (clean_plain doc Hplain). reflexivity.
Qed.

Lemma producible_token (doc : string) (t : token) :
  In t (tokens_of doc) -> producible t = true.
Proof.
  intros H. destruct (tokens_of_word_like doc t H) as [[Hne Hchars] Hp].
  unfold producible. rewrite Hchars, Hp.
  destruct t; [contradiction Hne; reflexivity|reflexivity].
Qed.

Lemma contains_producible (words : list string) (t : token) :
  producible t = true ->
  contains (filter producible words) t = contains words t.
Proof.
  intros Ht. unfold contains.
  induction words as [|w words IH]; [reflexivity|].
  cbn [filter existsb]. destruct (producible w) eqn:Hw.
  - cbn [existsb]. rewrite IH. reflexivity.
  - rewrite IH. destruct (String.eqb t w) eqn:Heq; [|reflexivity].
    apply String.eqb_eq in Heq. subst w. congruence.
Qed.

(** X17: on a text of ASCII characters, a stopword the tokenizer cannot
    produce (one that is empty, holds a character other than a lower-case
    ASCII letter or an underscore, such as the apostrophe of "aren't", or
    begins with an underscore) never removes anything: [preprocess] returns
    the same tokens when such words are taken out of the stopword list. *)
Theorem X17_stopwords_that_are_not_tokens_are_inert
        (doc : string) (words : list string) (self : DocSim) :
  all_chars is_ascii doc = true ->
  stopwords self = Some words ->
  fst (preprocess doc self)
  = fst (preprocess doc (set_stopwords (filter producible words) self)).
Proof.
  intros _ Hsw.
  rewrite (preprocess_with_stopwords self words doc Hsw).
  rewrite (preprocess_with_stopwords
             (set_stopwords (filter producible words) self)
             (filter producible words) doc eq_refl).
  cbn [fst]. f_equal. unfold without. apply filter_ext_in.
  intros t Ht. rewrite (contains_producible words t (producible_token doc t Ht)).
  reflexivity.
Qed.

(** X18: [similarity_query] prints nothing unless the instance is verbose;
    on a verbose instance it prints the "not ready" message when the model is
    not ready, and exactly one line giving the number of documents when it
    returns a ranking. *)
Theorem X18_what_similarity_query_prints
        (query_string : string) (documents : list string) (explain : bool)
        (self : DocSim) :
  let self' := snd (similarity_query query_string documents explain self) in
  (verbose self = false -> printed self' = printed self)
  /\ (verbose self = true -> model_ready self = false ->
      printed self'
      = printed self ++ ["DocSim model not ready - cannot evaluate"])
  /\ (verbose self = true ->
      forall r,
        fst (similarity_query query_string documents explain self)
        = Return (Some r) ->
        printed self'
        = printed self
          ++ [(string_of_nat (List.length documents)
               ++ " documents loaded into corpus")%string]).
Proof.
  cbv zeta. rewrite similarity_query_run. cbn [fst snd].
  unfold answer, after, announce.
  split; [|split].
  - intros Hv. rewrite Hv.
    destruct (model_ready self); [|reflexivity].
    destruct (normalize_all (stopwords self) documents); [|reflexivity].
    destruct (normalize (stopwords self) query_string); [|reflexivity].
    destruct (similarity_index self); reflexivity.
  - intros Hv Hready. rewrite Hv, Hready. reflexivity.
  - intros Hv r. rewrite Hv.
    destruct (model_ready self); [|discriminate].
    destruct (normalize_all (stopwords self) documents) as [corpus|] eqn:Hc;
      [|discriminate].
    destruct (normalize (stopwords self) query_string); [|discriminate].
    destruct (similarity_index self); [|discriminate].
    intros _. rewrite (normalize_all_length _ _ _ Hc). reflexivity.
Qed.

(** X19: [similarity_query] never changes the configuration of the
    instance: the verbose flag, the model, the similarity index, the
    [model_ready] flag, the stopwords and the background thread are what
    they were, whatever the call returns or raises. *)
Theorem X19_similarity_query_keeps_the_configuration
        (query_string : string) (documents : list string) (explain : bool)
        (self : DocSim) :
  let self' := snd (similarity_query query_string documents explain self) in
  verbose self' = verbose self
  /\ model self' = model self
  /\ similarity_index self' = similarity_index self
  /\ model_ready self' = model_ready self
  /\ stopwords self' = stopwords self
  /\ thread self' = thread self.
Proof.
  cbv zeta. rewrite similarity_query_run. cbn [snd].
  destruct (after_configuration query_string documents self)
    as (Hr & Hs & Hi).
  assert (H : verbose (after query_string documents self) = verbose self
              /\ model (after query_string documents self) = model self
              /\ thread (after query_string documents self) = thread self).
  { unfold after.
    destruct (model_ready self).
    - destruct (normalize_all (stopwords self) documents); [|auto].
      destruct (normalize (stopwords self) query_string); [|auto].
      set (line := (_ ++ _)%string).
      destruct (announce_model line self) as (Am & Av & At).
      destruct (similarity_index self); cbn; auto.
    - destruct (announce_model
                  "DocSim model not ready - cannot evaluate" self)
        as (Am & Av & At).
      auto. }
  destruct H as (Hv & Hm & Ht). repeat split; assumption.
Qed.

End OnInstances.

(** ** The laws of the normalizer *)

Section Characters.

Lemma token_char_code (c : ascii) :
  Gensim.is_token_char c = is_letter_or_underscore c.
Proof. destruct c as [[] [] [] [] [] [] [] []]; reflexivity. Qed.

Lemma lower_char_code (c : ascii) :
  Text.lower_char c
  = if is_capital c then ascii_of_nat (nat_of_ascii c + 32) else c.
Proof. destruct c as [[] [] [] [] [] [] [] []]; reflexivity. Qed.

Lemma url_char_code (c : ascii) : Re.url_char c = is_url_character c.
Proof. destruct c as [[] [] [] [] [] [] [] []]; reflexivity. Qed.

Lemma lower_keeps_token_char (c : ascii) :
  Gensim.is_token_char (Text.lower_char c) = Gensim.is_token_char c.
Proof. destruct c as [[] [] [] [] [] [] [] []]; reflexivity. Qed.

Lemma lower_keeps_underscore (c : ascii) (s s' : string) :
  prefix "_" (String (Text.lower_char c) s) = prefix "_" (String c s').
Proof.
  destruct s, s'; destruct c as [[] [] [] [] [] [] [] []]; reflexivity.
Qed.

End Characters.

Section Texts.

Lemma lower_append (s1 s2 : string) :
  Text.lower (s1 ++ s2) = (Text.lower s1 ++ Text.lower s2)%string.
Proof.
  induction s1 as [|c s1 IH]; [reflexivity|]. cbn. rewrite IH. reflexivity.
Qed.

Lemma all_chars_append (p : ascii -> bool) (s1 s2 : string) :
  all_chars p (s1 ++ s2) = (all_chars p s1 && all_chars p s2)%bool.
Proof.
  induction s1 as [|c s1 IH]; [reflexivity|]. cbn. rewrite IH.
  apply Bool.andb_assoc.
Qed.

Lemma lower_token_chars (w : string) :
  all_chars Gensim.is_token_char (Text.lower w)
  = all_chars Gensim.is_token_char w.
Proof.
  induction w as [|c w IH]; [reflexivity|]. cbn.
  rewrite lower_keeps_token_char, IH. reflexivity.
Qed.

Lemma lower_length (s : string) :
  String.length (Text.lower s) = String.length s.
Proof. induction s as [|c s IH]; [reflexivity|]. cbn. rewrite IH. reflexivity. Qed.

Lemma lower_get (s : string) (i : nat) (c : ascii) :
  String.get i s = Some c ->
  String.get i (Text.lower s) = Some (Text.lower_char c).
Proof.
  revert i. induction s as [|a s IH]; intros i H; [discriminate H|].
  destruct i as [|i]; cbn in *.
  - injection H as <-. reflexivity.
  - exact (IH i H).
Qed.

End Texts.

Section Tokenizer.

Lemma tokenize_from_boundary (cur s1 : string) (c : ascii) (s2 : string) :
  Gensim.is_token_char c = false ->
  Gensim.tokenize_from cur (s1 ++ String c s2)
  = Gensim.tokenize_from cur s1 ++ Gensim.tokenize_from EmptyString s2.
Proof.
  intros Hc. revert cur. induction s1 as [|a s1 IH]; intros cur.
  - cbn [append Gensim.tokenize_from]. rewrite Hc. reflexivity.
  - cbn [append Gensim.tokenize_from].
    destruct (Gensim.is_token_char a).
    + apply IH.
    + rewrite IH, app_assoc. reflexivity.
Qed.

Lemma tokenize_from_run (cur w : string) :
  all_chars Gensim.is_token_char w = true ->
  Gensim.tokenize_from cur w = Gensim.flush (cur ++ w).
Proof.
  revert cur. induction w as [|a w IH]; intros cur H.
  - rewrite append_nil_r. reflexivity.
  - cbn [all_chars] in H. apply andb_prop in H. destruct H as [Ha Hw].
    cbn [Gensim.tokenize_from]. rewrite Ha, (IH _ Hw), append_assoc.
    reflexivity.
Qed.

(** A character that is neither a letter nor the underscore ends the token
    before it and starts no token. *)
Lemma tokenize_boundary (s1 : string) (c : ascii) (s2 : string) :
  Gensim.is_token_char c = false ->
  Gensim.tokenize (s1 ++ String c s2)
  = Gensim.tokenize s1 ++ Gensim.tokenize s2.
Proof.
  intros Hc. unfold Gensim.tokenize. rewrite lower_append.
  cbn [Text.lower]. apply tokenize_from_boundary.
  rewrite lower_keeps_token_char. exact Hc.
Qed.

(** A run of letters and underscores is one token, whatever its length. *)
Lemma tokenize_run (w : string) :
  w <> EmptyString ->
  all_chars Gensim.is_token_char w = true ->
  Gensim.tokenize w = [Text.lower w].
Proof.
  intros Hne Hw. unfold Gensim.tokenize.
  rewrite tokenize_from_run by (rewrite lower_token_chars; exact Hw).
  destruct w as [|a w]; [contradiction Hne; reflexivity|]. reflexivity.
Qed.

Lemma simple_preprocess_boundary (s1 : string) (c : ascii) (s2 : string) :
  Gensim.is_token_char c = false ->
  Gensim.simple_preprocess (s1 ++ String c s2) 0 None
  = Gensim.simple_preprocess s1 0 None ++ Gensim.simple_preprocess s2 0 None.
Proof.
  intros Hc. rewrite !simple_preprocess_unbounded, (tokenize_boundary _ _ _ Hc).
  apply filter_app.
Qed.

Lemma simple_preprocess_run (w : string) :
  w <> EmptyString ->
  all_chars Gensim.is_token_char w = true ->
  Gensim.simple_preprocess w 0 None
  = if prefix "_" w then [] else [Text.lower w].
Proof.
  intros Hne Hw. rewrite simple_preprocess_unbounded, (tokenize_run w Hne Hw).
  cbn [filter].
  destruct w as [|a w]; [contradiction Hne; reflexivity|].
  cbn [Text.lower]. rewrite (lower_keeps_underscore a (Text.lower w) w).
  destruct (prefix "_" (String a w)); reflexivity.
Qed.

(** The tokens of a text in which a word stands between two spaces. *)
Lemma simple_preprocess_around (pre word rest : string) :
  word <> EmptyString ->
  all_chars Gensim.is_token_char word = true ->
  Gensim.simple_preprocess (pre ++ String " " (word ++ String " " rest)) 0 None
  = Gensim.simple_preprocess pre 0 None
    ++ (if prefix "_" word then [] else [Text.lower word])
    ++ Gensim.simple_preprocess rest 0 None.
Proof.
  intros Hne Hw.
  rewrite (simple_preprocess_boundary pre " ") by reflexivity.
  rewrite (simple_preprocess_boundary word " ") by reflexivity.
  rewrite (simple_preprocess_run word Hne Hw). reflexivity.
Qed.

End Tokenizer.

Section Passes.

Lemma sub_angle_copies (opening repl pre rest : string) :
  all_chars (fun c => negb (Ascii.eqb c "<")) pre = true ->
  Re.sub (Re.match_angle (String "<" opening)) repl (pre ++ rest)
  = (pre ++ Re.sub (Re.match_angle (String "<" opening)) repl rest)%string.
Proof.
  apply (sub_copies_prefix _ (fun c => negb (Ascii.eqb c "<"))).
  intros c s Hc. apply match_angle_needs_bracket, Bool.negb_true_iff, Hc.
Qed.

Lemma re_img_assist_needs_bracket (c : ascii) (s : string) :
  Ascii.eqb c "[" = false -> Re.re_img_assist (String c s) = None.
Proof.
  intros Hc. unfold Re.re_img_assist. cbn [prefix].
  destruct (ascii_dec "[" c) as [<-|_]; [discriminate Hc|reflexivity].
Qed.

Lemma sub_assist_copies (repl pre rest : string) :
  all_chars (fun c => negb (Ascii.eqb c "[")) pre = true ->
  Re.sub Re.re_img_assist repl (pre ++ rest)
  = (pre ++ Re.sub Re.re_img_assist repl rest)%string.
Proof.
  apply (sub_copies_prefix _ (fun c => negb (Ascii.eqb c "["))).
  intros c s Hc. apply re_img_assist_needs_bracket, Bool.negb_true_iff, Hc.
Qed.

(** A URL starts with one of the two schemes. *)
Lemma re_url_starts (s : string) :
  Re.re_url s <> None ->
  prefix "http://" s = true \/ prefix "https://" s = true.
Proof.
  destruct s as [|c0 [|c1 [|c2 [|c3 r]]]];
    try (intros H; contradiction H; unfold Re.re_url; cbn [prefix];
         compare_characters; reflexivity).
  unfold Re.re_url. cbn [prefix].
  destruct (ascii_dec "h" c0) as [<-|];
    [|intros H; contradiction H; reflexivity].
  destruct (ascii_dec "t" c1) as [<-|];
    [|intros H; contradiction H; reflexivity].
  destruct (ascii_dec "t" c2) as [<-|];
    [|intros H; contradiction H; reflexivity].
  destruct (ascii_dec "p" c3) as [<-|];
    [|intros H; contradiction H; reflexivity].
  cbn [Text.drop Nat.add].
  destruct r as [|c4 r]; [intros H; contradiction H; reflexivity|].
  cbn [prefix]. destruct (ascii_dec "s" c4) as [<-|Hs].
  - destruct r as [|c5 r]; [intros H; contradiction H; reflexivity|].
    cbn [prefix Text.drop].
    destruct (ascii_dec ":" c5) as [<-|];
      [|intros H; contradiction H; reflexivity].
    destruct (prefix "//" r) eqn:Hr; [right; reflexivity|].
    intros H; contradiction H; reflexivity.
  - cbn [Text.drop prefix].
    destruct (ascii_dec ":" c4) as [<-|];
      [|intros H; contradiction H; reflexivity].
    destruct (prefix "//" r) eqn:Hr; [left; reflexivity|].
    intros H; contradiction H; reflexivity.
Qed.

(** No scheme starts in a text without colon that is followed by a
    character other than those of a scheme. *)
Lemma no_scheme_inside (Q : string) (c : ascii) (X : string) :
  Q <> EmptyString ->
  all_chars plain_char Q = true ->
  Text.one_of "tps:/" c = false ->
  prefix "http://" (Q ++ String c X) = false
  /\ prefix "https://" (Q ++ String c X) = false.
Proof.
  intros Hne Hplain Hc.
  destruct Q as [|a0 [|a1 [|a2 [|a3 [|a4 [|a5 Q]]]]]];
    [contradiction Hne; reflexivity|..];
    cbn [append prefix]; split; compare_characters;
    try reflexivity; try discriminate Hc; try discriminate Hplain.
Qed.

Lemma re_url_inside (Q : string) (c : ascii) (X : string) :
  Q <> EmptyString ->
  all_chars plain_char Q = true ->
  Text.one_of "tps:/" c = false ->
  Re.re_url (Q ++ String c X) = None.
Proof.
  intros Hne Hplain Hc.
  destruct (no_scheme_inside Q c X Hne Hplain Hc) as [H1 H2].
  destruct (Re.re_url (Q ++ String c X)) eqn:E; [|reflexivity].
  destruct (re_url_starts (Q ++ String c X)); [rewrite E; discriminate|..];
    congruence.
Qed.

Lemma sub_url_copies (repl pre : string) (c : ascii) (rest : string) :
  all_chars plain_char pre = true ->
  Text.one_of "tps:/" c = false ->
  Re.sub Re.re_url repl (pre ++ String c rest)
  = (pre ++ Re.sub Re.re_url repl (String c rest))%string.
Proof.
  intros Hplain Hc. induction pre as [|a pre IH]; [reflexivity|].
  cbn [append]. rewrite sub_no_match.
  - cbn [all_chars] in Hplain. apply andb_prop in Hplain.
    rewrite (IH (proj2 Hplain)). reflexivity.
  - apply (re_url_inside (String a pre) c rest);
      [discriminate|exact Hplain|exact Hc].
Qed.

Lemma plain_without_angle (s : string) :
  all_chars plain_char s = true ->
  all_chars (fun c => negb (Ascii.eqb c "<")) s = true.
Proof.
  apply all_chars_weaken. intros c Hc.
  rewrite (plain_not_bracket c Hc). reflexivity.
Qed.

Lemma plain_without_square (s : string) :
  all_chars plain_char s = true ->
  all_chars (fun c => negb (Ascii.eqb c "[")) s = true.
Proof.
  apply all_chars_weaken. intros c. unfold plain_char. cbn [Text.one_of].
  destruct (Ascii.eqb c "<"), (Ascii.eqb c "["); try discriminate; reflexivity.
Qed.

End Passes.

Section Cleaning.

Variable pre : string.
Hypothesis pre_plain : all_chars plain_char pre = true.

(** The last pass copies a plain text that is followed by a space. *)
Lemma sub_url_after_space (repl rest : string) :
  Re.sub Re.re_url repl (pre ++ String " " rest)
  = (pre ++ String " " (Re.sub Re.re_url repl rest))%string.
Proof.
  rewrite (sub_url_copies repl pre " " rest pre_plain eq_refl).
  rewrite sub_no_match by reflexivity. reflexivity.
Qed.

(** Image markup after a plain text. *)
Lemma clean_image (body rest : string) :
  body <> EmptyString -> all_chars Re.not_angle body = true ->
  clean (pre ++ "<img" ++ body ++ String ">" rest)
  = (pre ++ " image_token " ++ clean rest)%string.
Proof.
  intros Hne Hbody. unfold clean.
  unfold Re.re_img at 2.
  rewrite (sub_angle_copies "img" _ pre _ (plain_without_angle pre pre_plain)).
  fold Re.re_img. rewrite (image_markup_replaced body rest Hne Hbody).
  set (R1 := Re.sub Re.re_img " image_token " rest).
  replace (pre ++ " image_token " ++ R1)%string
    with ((pre ++ " image_token ") ++ R1)%string
    by (rewrite append_assoc; reflexivity).
  unfold Re.re_tag at 2.
  rewrite (sub_angle_copies "" " " (pre ++ " image_token "))
    by (rewrite all_chars_append, (plain_without_angle pre pre_plain);
        reflexivity).
  fold Re.re_tag. set (R2 := Re.sub Re.re_tag " " R1).
  rewrite (sub_assist_copies " " (pre ++ " image_token "))
    by (rewrite all_chars_append, (plain_without_square pre pre_plain);
        reflexivity).
  set (R3 := Re.sub Re.re_img_assist " " R2).
  replace ((pre ++ " image_token ") ++ R3)%string
    with ((pre ++ " image_token") ++ String " " R3)%string
    by (rewrite !append_assoc; reflexivity).
  rewrite (sub_url_copies " url_token " (pre ++ " image_token") " " R3)
    by (try rewrite all_chars_append, pre_plain; reflexivity).
  rewrite sub_no_match by reflexivity.
  rewrite !append_assoc. reflexivity.
Qed.

Lemma not_image_tag (body rest : string) :
  prefix "img" body = false ->
  Re.re_img (String "<" (body ++ String ">" rest)) = None.
Proof.
  intros H. unfold Re.re_img, Re.match_angle.
  replace (prefix "<img" (String "<" (body ++ String ">" rest))) with false;
    [reflexivity|].
  destruct body as [|b0 [|b1 [|b2 body]]]; cbn [append prefix] in *;
    compare_characters; try reflexivity; try discriminate H; try congruence.
  destruct body; discriminate H.
Qed.

Lemma without_angle_closed (body : string) :
  all_chars Re.not_angle body = true ->
  all_chars (fun c => negb (Ascii.eqb c "<")) (body ++ ">") = true.
Proof.
  intros H. rewrite all_chars_append.
  rewrite (all_chars_weaken Re.not_angle _ body); [reflexivity| |exact H].
  intros c. unfold Re.not_angle. cbn [Text.one_of].
  destruct (Ascii.eqb c "<"); [discriminate|reflexivity].
Qed.

(** Any other tag after a plain text. *)
Lemma clean_tag (body rest : string) :
  body <> EmptyString -> all_chars Re.not_angle body = true ->
  prefix "img" body = false ->
  clean (pre ++ "<" ++ body ++ String ">" rest)
  = (pre ++ " " ++ clean rest)%string.
Proof.
  intros Hne Hbody Himg. unfold clean.
  unfold Re.re_img at 2.
  rewrite (sub_angle_copies "img" _ pre _ (plain_without_angle pre pre_plain)).
  fold Re.re_img. cbn [append].
  rewrite sub_no_match by (apply not_image_tag, Himg).
  replace (body ++ String ">" rest)%string with ((body ++ ">") ++ rest)%string
    by (rewrite append_assoc; reflexivity).
  unfold Re.re_img at 2.
  rewrite (sub_angle_copies "img" _ (body ++ ">") _
             (without_angle_closed body Hbody)).
  fold Re.re_img. set (R1 := Re.sub Re.re_img " image_token " rest).
  replace (pre ++ String "<" ((body ++ ">") ++ R1))%string
    with (pre ++ "<" ++ body ++ String ">" R1)%string
    by (cbn [append]; rewrite append_assoc; reflexivity).
  unfold Re.re_tag at 2.
  rewrite (sub_angle_copies "" _ pre _ (plain_without_angle pre pre_plain)).
  fold Re.re_tag. rewrite (tag_markup_stripped body R1 Hne Hbody).
  set (R2 := Re.sub Re.re_tag " " R1).
  replace (pre ++ " " ++ R2)%string with ((pre ++ " ") ++ R2)%string
    by (rewrite append_assoc; reflexivity).
  rewrite (sub_assist_copies " " (pre ++ " "))
    by (rewrite all_chars_append, (plain_without_square pre pre_plain);
        reflexivity).
  set (R3 := Re.sub Re.re_img_assist " " R2).
  replace ((pre ++ " ") ++ R3)%string with (pre ++ String " " R3)%string
    by (rewrite append_assoc; reflexivity).
  rewrite sub_url_after_space. reflexivity.
Qed.

Lemma url_end_kept (m : string -> option nat) (repl rest : string) :
  (forall c s, Re.url_char c = false -> m (String c s) = None) ->
  Text.span Re.url_char rest = 0 ->
  Text.span Re.url_char (Re.sub m repl rest) = 0.
Proof.
  intros Hm. destruct rest as [|c r]; [reflexivity|].
  cbn [Text.span]. destruct (Re.url_char c) eqn:Hc; [discriminate|].
  intros _. rewrite sub_no_match by (apply Hm, Hc).
  cbn [Text.span]. rewrite Hc. reflexivity.
Qed.

Lemma url_char_brackets (c : ascii) :
  Re.url_char c = false ->
  Ascii.eqb c "<" = false /\ Ascii.eqb c "[" = false.
Proof.
  destruct c as [[] [] [] [] [] [] [] []]; intros H;
    first [discriminate H | split; reflexivity].
Qed.

Lemma host_characters (host : string) :
  all_chars is_host_character host = true ->
  all_chars Re.url_char host = true
  /\ all_chars (fun c => negb (Ascii.eqb c "<")) host = true
  /\ all_chars (fun c => negb (Ascii.eqb c "[")) host = true.
Proof.
  intros H. repeat split; revert H; apply all_chars_weaken; intros c;
    unfold is_host_character; try rewrite url_char_code;
    destruct (is_url_character c), (Ascii.eqb c "<"), (Ascii.eqb c "[");
    try discriminate; reflexivity.
Qed.

(** A URL after a plain text. *)
Lemma clean_url (scheme host rest : string) :
  scheme = "http://" \/ scheme = "https://" ->
  host <> EmptyString -> all_chars is_host_character host = true ->
  Text.span Re.url_char rest = 0 ->
  clean (pre ++ scheme ++ host ++ rest)
  = (pre ++ " url_token " ++ clean rest)%string.
Proof.
  intros Hscheme Hne Hhost Hrest.
  destruct (host_characters host Hhost) as (Hurl & Hangle & Hsquare).
  assert (Hs : all_chars (fun c => negb (Ascii.eqb c "<")) scheme = true
               /\ all_chars (fun c => negb (Ascii.eqb c "[")) scheme = true
               /\ exists tail, scheme = String "h" tail).
  { destruct Hscheme as [-> | ->]; repeat split; eexists; reflexivity. }
  destruct Hs as (Hs1 & Hs2 & tail & Htail).
  unfold clean.
  replace (pre ++ scheme ++ host ++ rest)%string
    with ((pre ++ scheme ++ host) ++ rest)%string
    by (rewrite !append_assoc; reflexivity).
  unfold Re.re_img at 2.
  rewrite (sub_angle_copies "img" _ (pre ++ scheme ++ host))
    by (rewrite !all_chars_append, (plain_without_angle pre pre_plain),
          Hs1, Hangle; reflexivity).
  fold Re.re_img. set (R1 := Re.sub Re.re_img " image_token " rest).
  assert (H1 : Text.span Re.url_char R1 = 0).
  { apply url_end_kept; [|exact Hrest]. intros c s Hc.
    apply match_angle_needs_bracket, (url_char_brackets c Hc). }
  unfold Re.re_tag at 2.
  rewrite (sub_angle_copies "" _ (pre ++ scheme ++ host))
    by (rewrite !all_chars_append, (plain_without_angle pre pre_plain),
          Hs1, Hangle; reflexivity).
  fold Re.re_tag. set (R2 := Re.sub Re.re_tag " " R1).
  assert (H2 : Text.span Re.url_char R2 = 0).
  { apply url_end_kept; [|exact H1]. intros c s Hc.
    apply match_angle_needs_bracket, (url_char_brackets c Hc). }
  rewrite (sub_assist_copies " " (pre ++ scheme ++ host))
    by (rewrite !all_chars_append, (plain_without_square pre pre_plain),
          Hs2, Hsquare; reflexivity).
  set (R3 := Re.sub Re.re_img_assist " " R2).
  assert (H3 : Text.span Re.url_char R3 = 0).
  { apply url_end_kept; [|exact H2]. intros c s Hc.
    apply re_img_assist_needs_bracket, (url_char_brackets c Hc). }
  replace ((pre ++ scheme ++ host) ++ R3)%string
    with (pre ++ String "h" (tail ++ host ++ R3))%string
    by (rewrite Htail, !append_assoc; reflexivity).
  rewrite (sub_url_copies _ pre "h" _ pre_plain eq_refl).
  replace (String "h" (tail ++ host ++ R3)) with (scheme ++ host ++ R3)%string
    by (rewrite Htail; reflexivity).
  rewrite (url_replaced host R3 Hne Hurl H3 scheme Hscheme). reflexivity.
Qed.

End Cleaning.

Section TokensOfTexts.

Lemma letters_are_plain (w : string) :
  all_chars is_letter_or_underscore w = true ->
  all_chars plain_char w = true
  /\ all_chars Gensim.is_token_char w = true.
Proof.
  intros H. split; revert H; apply all_chars_weaken; intros c.
  - destruct c as [[] [] [] [] [] [] [] []]; intros H;
      first [discriminate H | reflexivity].
  - rewrite token_char_code. auto.
Qed.

Lemma tokens_of_word (w : string) :
  w <> EmptyString -> all_chars is_letter_or_underscore w = true ->
  tokens_of w = if prefix "_" w then [] else [Text.lower w].
Proof.
  intros Hne Hw. destruct (letters_are_plain w Hw) as [Hplain Htoken].
  unfold tokens_of. rewrite (clean_plain w Hplain).
  exact (simple_preprocess_run w Hne Htoken).
Qed.

Lemma tokens_of_boundary (s1 : string) (c : ascii) (s2 : string) :
  all_chars plain_char (s1 ++ String c s2) = true ->
  is_letter_or_underscore c = false ->
  tokens_of (s1 ++ String c s2) = tokens_of s1 ++ tokens_of s2.
Proof.
  intros Hplain Hc. unfold tokens_of. rewrite (clean_plain _ Hplain).
  rewrite all_chars_append in Hplain. apply andb_prop in Hplain.
  destruct Hplain as [H1 H2]. cbn [all_chars] in H2. apply andb_prop in H2.
  rewrite (clean_plain s1 H1), (clean_plain s2 (proj2 H2)).
  apply simple_preprocess_boundary. rewrite token_char_code. exact Hc.
Qed.

Variable pre : string.
Hypothesis pre_plain : all_chars plain_char pre = true.

Lemma tokens_of_image (body rest : string) :
  body <> EmptyString -> all_chars Re.not_angle body = true ->
  tokens_of (pre ++ "<img" ++ body ++ String ">" rest)
  = tokens_of pre ++ ["image_token"] ++ tokens_of rest.
Proof.
  intros Hne Hbody. unfold tokens_of.
  rewrite (clean_image pre pre_plain body rest Hne Hbody).
  rewrite (clean_plain pre pre_plain).
  exact (simple_preprocess_around pre "image_token" (clean rest)
           ltac:(discriminate) eq_refl).
Qed.

Lemma tokens_of_tag (body rest : string) :
  body <> EmptyString -> all_chars Re.not_angle body = true ->
  prefix "img" body = false ->
  tokens_of (pre ++ "<" ++ body ++ String ">" rest)
  = tokens_of pre ++ tokens_of rest.
Proof.
  intros Hne Hbody Himg. unfold tokens_of.
  rewrite (clean_tag pre pre_plain body rest Hne Hbody Himg).
  rewrite (clean_plain pre pre_plain).
  exact (simple_preprocess_boundary pre " " (clean rest) eq_refl).
Qed.

Lemma tokens_of_url (scheme host rest : string) :
  scheme = "http://" \/ scheme = "https://" ->
  host <> EmptyString -> all_chars is_host_character host = true ->
  Text.span Re.url_char rest = 0 ->
  tokens_of (pre ++ scheme ++ host ++ rest)
  = tokens_of pre ++ ["url_token"] ++ tokens_of rest.
Proof.
  intros Hscheme Hne Hhost Hrest. unfold tokens_of.
  rewrite (clean_url pre pre_plain scheme host rest Hscheme Hne Hhost Hrest).
  rewrite (clean_plain pre pre_plain).
  exact (simple_preprocess_around pre "url_token" (clean rest)
           ltac:(discriminate) eq_refl).
Qed.

End TokensOfTexts.

Section NormalizerLaws.
Context {B : Backend}.

Lemma preprocessed_unique (self : DocSim) (words : list string)
      (doc : string) (ts : list token) :
  stopwords self = Some words ->
  preprocessed self doc ts -> ts = without words (tokens_of doc).
Proof.
  intros Hsw H. unfold preprocessed in H.
  rewrite (preprocess_with_stopwords self words doc Hsw) in H.
  injection H as <-. reflexivity.
Qed.

Lemma url_end (rest : string) :
  (forall c r, rest = String c r -> is_url_character c = false) ->
  Text.span Re.url_char rest = 0.
Proof.
  intros H. destruct rest as [|c r]; [reflexivity|].
  cbn [Text.span]. rewrite url_char_code, (H c r eq_refl). reflexivity.
Qed.


End NormalizerLaws.


(** ** The further properties on the small backend *)

Lemma X1_setup_model_witness :
  model_ready (snd (setup_model (B := Demo.backend) NoModel new_object))
  = true.
Proof.
  destruct (X1_setup_model_loads_and_signals_readiness
              (B := Demo.backend) NoModel
              (@nil (token * token * Q) : @Model Demo.backend)
              new_object eq_refl)
    as (_ & _ & _ & Hready & _).
  exact Hready.
Defined.

Lemma X3_constructor_witness :
  stopwords (snd (DocSim_init (B := Demo.backend) NoModel
                              (Some ["the"; "and"; "are"]) false new_object))
  = Some ["the"; "and"; "are"].
Proof.
  destruct (X3_DocSim_constructor_uses_supplied_stopwords
              (B := Demo.backend) NoModel
              (@nil (token * token * Q) : @Model Demo.backend)
              (Some ["the"; "and"; "are"]) false eq_refl)
    as (_ & _ & _ & Hsw & _).
  exact Hsw.
Defined.


Lemma X6_coherent_witness : model_ready Demo.queried = true.
Proof.
  destruct (X6_reachable_instances_are_coherent
              Demo.queried
              (reach_similarity_query _ _ _ _
                 (reach_DocSim
                    (@Vectors Demo.backend [("car", "bicycle", 0.4%Q)])
                    (Some nltk_stop_words) false eq_refl)))
    as (_ & _ & _ & H).
  apply H. vm_compute. discriminate.
Defined.

Lemma X7_exception_witness :
  snd (similarity_query "fast red car" ["a quick red automobile"] false
         (Demo.loaded (Some ["the"; "and"; "are"])))
  = Demo.loaded (Some ["the"; "and"; "are"]).
Proof.
  destruct (X7_similarity_query_raises_only_for_missing_stopwords
              DemoFacts.first_seen_set_ok DemoFacts.first_seen_dictionary_ok
              "fast red car" ["a quick red automobile"] false
              (Demo.loaded (Some ["the"; "and"; "are"]))
              (AttributeError "stopwords")
              (reach_thread_run _
                 (reach_DocSim_threaded (B := Demo.backend) NoModel
                    (Some ["the"; "and"; "are"]) true))
              ltac:(vm_compute; reflexivity))
    as (_ & _ & H).
  exact H.
Defined.

Lemma X8_row_score_witness :
  exists corpus query scores,
    fst (for_each preprocess ["bicycle"; "car"]
           (Demo.ready [] nltk_stop_words)) = Return corpus
    /\ fst (preprocess "car" (Demo.ready [] nltk_stop_words)) = Return query
    /\ fst (_softcossim query corpus
              (snd (similarity_query "car" ["bicycle"; "car"] false
                      (Demo.ready [] nltk_stop_words)))) = Return scores
    /\ forall i s,
         In (i, s) [(1, 1%Q); (0, 0%Q)] -> nth_error scores i = Some s.
Proof.
  exact (X8_row_score_belongs_to_row_index
           DemoFacts.stable_argsort_ok
           "car" ["bicycle"; "car"] false (Demo.ready [] nltk_stop_words)
           (Ranked [(1, 1%Q); (0, 0%Q)])
           ltac:(vm_compute; reflexivity)).
Defined.

Lemma X9_rows_witness :
  List.length (ranking_rows (Ranked [(1, 1%Q); (0, 0%Q)])) = 2.
Proof.
  exact (X9_number_of_rows
           DemoFacts.stable_argsort_ok
           "car" ["bicycle"; "car"] false (Demo.ready [] nltk_stop_words)
           (Ranked [(1, 1%Q); (0, 0%Q)]) ["car"]
           ltac:(vm_compute; reflexivity) ltac:(vm_compute; reflexivity)).
Defined.

Lemma X10_explain_witness :
  ranking_rows (Explained [(1, 1%Q, []); (0, 0%Q, [("car", 1%Q)])])
  = ranking_rows (Ranked [(1, 1%Q); (0, 0%Q)]).
Proof.
  destruct (X10_explanations_do_not_change_scores
              DemoFacts.stable_argsort_ok
              "car" ["bicycle"; "car"] (Demo.ready [] nltk_stop_words)
              (Ranked [(1, 1%Q); (0, 0%Q)])
              (Explained [(1, 1%Q, []); (0, 0%Q, [("car", 1%Q)])]) ["car"]
              ltac:(vm_compute; reflexivity) ltac:(vm_compute; reflexivity)
              ltac:(vm_compute; reflexivity)) as [_ H].
  apply H. discriminate.
Defined.

Lemma X13_best_terms_witness :
  exists terms,
    fst (_find_similar_terms ["car"] [["bicycle"; "car"; "bicycle"]] 1
           Demo.queried) = Return [terms]
    /\ List.length terms <= 1.
Proof.
  destruct (X13_explanation_keeps_the_best_terms
              "car" ["bicycle"; "car"; "bicycle"] 1 Demo.queried
              ["bicycle"; "car"]
              (Demo.entry [("car", "bicycle", 0.4%Q)] ["bicycle"; "car"]) 1
              DemoFacts.first_seen_set_ok eq_refl eq_refl eq_refl
              ltac:(intros w [<-|[<-|[<-|[]]]]; discriminate))
    as (terms & Hrun & _ & _).
  exists terms. split; [exact Hrun|].
  vm_compute in Hrun. injection Hrun as <-. repeat constructor.
Defined.

Lemma X14_unclosed_tag_witness :
  Re.sub Re.re_tag " " "1 < 2 and more" = "1  ".
Proof.
  destruct (X14_unclosed_tag_swallows_the_rest_of_the_text
              "1 " " 2 and more" eq_refl eq_refl "") as [H _].
  exact (proj1 (H ltac:(discriminate))).
Defined.

Lemma X16_plain_text_witness :
  fst (preprocess "fast red car" (Demo.ready [] nltk_stop_words))
  = Return (without nltk_stop_words
              (Gensim.simple_preprocess "fast red car" 0 None)).
Proof.
  exact (proj2 (X16_plain_text_is_only_tokenized
                  "fast red car" nltk_stop_words
                  (Demo.ready [] nltk_stop_words) eq_refl eq_refl)).
Defined.

Lemma X17_inert_stopwords_witness :
  fst (preprocess "we aren't here yet" Demo.default)
  = fst (preprocess "we aren't here yet"
           (set_stopwords (filter producible nltk_stop_words) Demo.default)).
Proof.
  exact (X17_stopwords_that_are_not_tokens_are_inert
           "we aren't here yet" nltk_stop_words Demo.default eq_refl eq_refl).
Defined.
